(** * arXiv-Paper-Quality-Filter: venue resolution and keyword scoring

    A shallow embedding of [first_analysis] and [second_analysis] of
    [arXiv-Paper-Quality-Filter.py], with the string and regular-expression
    primitives they call, and the properties of the matching engine.

    Texts are modelled as lists of ASCII characters.  Characters above 127
    are treated as caseless symbols that are neither word characters nor
    white space; the development says nothing about non-ASCII input. *)

From Stdlib Require Import List Ascii String Bool Arith NArith ZArith Lia.
From Stdlib Require Import DecimalString.
Import ListNotations.

(** ** Exceptions *)

Inductive exn : Type :=
| KeyError
| IndexError
| AttributeError.

Inductive result (A : Type) : Type :=
| Ok (a : A)
| Raise (e : exn).

Arguments Ok {A} a.
Arguments Raise {A} e.

Definition bind {A B : Type} (m : result A) (f : A -> result B) : result B :=
  match m with
  | Ok a => f a
  | Raise e => Raise e
  end.

Notation "x <- m ;; f" := (bind m (fun x => f))
  (at level 61, m at next level, right associativity).

(** ** Characters *)

Definition text : Type := list ascii.

Definition str (s : string) : text := list_ascii_of_string s.

Module Char.

Definition code (c : ascii) : N := N_of_ascii c.

Definition in_range (lo hi : N) (c : ascii) : bool :=
  ((lo <=? code c) && (code c <=? hi))%N.

Definition is_upper (c : ascii) : bool := in_range 65 90 c.
Definition is_lower (c : ascii) : bool := in_range 97 122 c.
Definition is_digit (c : ascii) : bool := in_range 48 57 c.

(** [\w]: letters, digits and the underscore. *)
Definition is_word (c : ascii) : bool :=
  is_upper c || is_lower c || is_digit c || (code c =? 95)%N.

(** [\s] and [str.isspace]: TAB, LF, VT, FF, CR, FS, GS, RS, US, space. *)
Definition is_space (c : ascii) : bool :=
  in_range 9 13 c || in_range 28 32 c.

Definition lower (c : ascii) : ascii :=
  if is_upper c then ascii_of_N (code c + 32) else c.

Definition upper (c : ascii) : ascii :=
  if is_lower c then ascii_of_N (code c - 32) else c.

Definition eqb (a b : ascii) : bool := Ascii.eqb a b.

End Char.

(** ** Python string operations *)

Module Str.

Fixpoint eqb (a b : text) : bool :=
  match a, b with
  | [], [] => true
  | x :: a', y :: b' => Char.eqb x y && eqb a' b'
  | _, _ => false
  end.

(** [s.startswith(p)] *)
Fixpoint startswith (s p : text) {struct p} : bool :=
  match p, s with
  | [], _ => true
  | x :: p', y :: s' => Char.eqb x y && startswith s' p'
  | _ :: _, [] => false
  end.

(** [s.endswith(p)] *)
Definition endswith (s p : text) : bool := startswith (rev s) (rev p).

(** [sub in s] *)
Fixpoint contains (s sub : text) : bool :=
  startswith s sub ||
  match s with
  | [] => false
  | _ :: s' => contains s' sub
  end.

(** [s.find(sub)]: the lowest index where [sub] occurs, or [-1]. *)
Fixpoint find_from (i : nat) (s sub : text) : Z :=
  if startswith s sub then Z.of_nat i
  else match s with
       | [] => (-1)%Z
       | _ :: s' => find_from (S i) s' sub
       end.

Definition find (s sub : text) : Z := find_from 0 s sub.

(** [s.lower()] *)
Definition lower (s : text) : text := map Char.lower s.

Fixpoint lstrip (s : text) : text :=
  match s with
  | c :: s' => if Char.is_space c then lstrip s' else s
  | [] => []
  end.

(** [s.strip()] *)
Definition strip (s : text) : text := rev (lstrip (rev (lstrip s))).

(** [s.isupper()]: there is a cased character and no lowercase one. *)
Definition isupper (s : text) : bool :=
  existsb Char.is_upper s && negb (existsb Char.is_lower s).

(** [s.isdigit()] *)
Definition isdigit (s : text) : bool :=
  match s with
  | [] => false
  | _ => forallb Char.is_digit s
  end.

(** An index of a slice, counted from the end when negative and clipped
    to the string. *)
Definition clip (len : nat) (i : Z) : nat :=
  let j := if (i <? 0)%Z then (i + Z.of_nat len)%Z else i in
  Nat.min len (Z.to_nat j).

(** [s[a:b]] *)
Definition slice (s : text) (a b : Z) : text :=
  let lo := clip (List.length s) a in
  let hi := clip (List.length s) b in
  firstn (hi - lo) (skipn lo s).

(** [sep.join(l)] *)
Fixpoint join (sep : text) (l : list text) : text :=
  match l with
  | [] => []
  | [x] => x
  | x :: l' => x ++ sep ++ join sep l'
  end.

End Str.

(** ** Regular expressions

    The patterns of the program are written as syntax trees; matching is by
    backtracking with greedy repetition, as in Python's [re]. *)

Module Re.

Inductive citem : Type :=
| One (c : ascii)
| Range (lo hi : ascii)
| Digit
| Space
| Word.

Inductive re : Type :=
| Empty
| Chr (c : ascii)
| Cls (negated : bool) (items : list citem)
| Seq (a b : re)
| Alt (a b : re)
| Star (a : re)
| Group (a : re)
| Bol
| Eol
| WordB.

(** [re.escape(s)] spliced into a pattern: the characters of [s]. *)
Fixpoint lit (s : text) : re :=
  match s with
  | [] => Empty
  | c :: s' => Seq (Chr c) (lit s')
  end.

Definition Plus (a : re) : re := Seq a (Star a).
Definition Opt (a : re) : re := Alt a Empty.

Fixpoint Rep (n : nat) (a : re) : re :=
  match n with
  | 0 => Empty
  | S n' => Seq a (Rep n' a)
  end.

Fixpoint seqs (l : list re) : re :=
  match l with
  | [] => Empty
  | [a] => a
  | a :: l' => Seq a (seqs l')
  end.

Fixpoint alts (l : list text) : re :=
  match l with
  | [] => Cls false []
  | [a] => lit a
  | a :: l' => Alt (lit a) (alts l')
  end.

Definition digit : re := Cls false [Digit].
Definition space : re := Cls false [Space].
Definition nonword : re := Cls true [Word].
Definition AZ : re := Cls false [Range "A" "Z"].
Definition oneof (cs : string) : re := Cls false (map One (str cs)).
Definition noneof (cs : string) : re := Cls true (map One (str cs)).

(** The position in the subject: characters consumed, the character just
    before, what remains, and the span of group 1. *)
Record st : Type := mkst {
  pos : nat;
  prev : option ascii;
  rest : text;
  g1 : option (nat * nat)
}.

Definition item_has (i : citem) (c : ascii) : bool :=
  match i with
  | One x => Char.eqb x c
  | Range lo hi => Char.in_range (Char.code lo) (Char.code hi) c
  | Digit => Char.is_digit c
  | Space => Char.is_space c
  | Word => Char.is_word c
  end.

Definition items_have (ic : bool) (items : list citem) (c : ascii) : bool :=
  existsb (fun i => item_has i c) items ||
  (ic && (existsb (fun i => item_has i (Char.lower c)) items ||
          existsb (fun i => item_has i (Char.upper c)) items)).

Definition chr_eq (ic : bool) (x c : ascii) : bool :=
  if ic then Char.eqb (Char.lower x) (Char.lower c) else Char.eqb x c.

Definition is_word_opt (o : option ascii) : bool :=
  match o with
  | Some c => Char.is_word c
  | None => false
  end.

Definition at_boundary (x : st) : bool :=
  xorb (is_word_opt (prev x)) (is_word_opt (hd_error (rest x))).

(** [$]: at the end, or before a newline that ends the subject. *)
Definition at_end (x : st) : bool :=
  match rest x with
  | [] => true
  | [c] => Char.eqb c "010"
  | _ => false
  end.

Definition eat (p : ascii -> bool) {A : Type} (k : st -> option A) (x : st)
  : option A :=
  match rest x with
  | c :: r => if p c then k (mkst (S (pos x)) (Some c) r (g1 x)) else None
  | [] => None
  end.

Section Matcher.

(** [re.IGNORECASE] *)
Variable ic : bool.
Context {A : Type}.

(** Greedy repetition of [body]: another round is taken first, and only
    if it moves forward; [n] bounds the rounds by the characters left. *)
Fixpoint star_loop (body : (st -> option A) -> st -> option A)
         (k : st -> option A) (n : nat) (x : st) {struct n} : option A :=
  match n with
  | 0 => k x
  | S n' =>
      match body (fun y => if pos x <? pos y then star_loop body k n' y
                           else None) x with
      | Some y => Some y
      | None => k x
      end
  end.

Fixpoint run (r : re) (k : st -> option A) (x : st) {struct r} : option A :=
  match r with
  | Empty => k x
  | Chr c => eat (chr_eq ic c) k x
  | Cls neg items => eat (fun c => xorb neg (items_have ic items c)) k x
  | Seq a b => run a (run b k) x
  | Alt a b =>
      match run a k x with
      | Some y => Some y
      | None => run b k x
      end
  | Star a => star_loop (run a) k (List.length (rest x)) x
  | Group a => run a (fun y => k (mkst (pos y) (prev y) (rest y)
                                      (Some (pos x, pos y)))) x
  | Bol => if pos x =? 0 then k x else None
  | Eol => if at_end x then k x else None
  | WordB => if at_boundary x then k x else None
  end.

End Matcher.

(** A match object: its span and the span of group 1. *)
Record Match : Type := mkMatch {
  m_start : nat;
  m_end : nat;
  m_g1 : option (nat * nat)
}.

Definition match_at (ic : bool) (r : re) (p : nat) (pv : option ascii)
           (l : text) : option Match :=
  match run ic r (fun y => Some y) (mkst p pv l None) with
  | Some y => Some (mkMatch p (pos y) (g1 y))
  | None => None
  end.

(** The leftmost match at or after the current position. *)
Fixpoint search_from (ic : bool) (r : re) (p : nat) (pv : option ascii)
         (l : text) {struct l} : option Match :=
  match match_at ic r p pv l with
  | Some m => Some m
  | None =>
      match l with
      | [] => None
      | c :: l' => search_from ic r (S p) (Some c) l'
      end
  end.

(** [re.search(r, t)], with [ic] for [re.IGNORECASE]. *)
Definition search (ic : bool) (r : re) (t : text) : option Match :=
  search_from ic r 0 None t.

Fixpoint advance (n : nat) (pv : option ascii) (l : text)
  : option ascii * text :=
  match n, l with
  | S n', c :: l' => advance n' (Some c) l'
  | _, _ => (pv, l)
  end.

(** [re.finditer(r, t)]: successive non-overlapping matches.  After an
    empty match the scan moves on by one character. *)
Fixpoint finditer_from (fuel : nat) (r : re) (p : nat) (pv : option ascii)
         (l : text) {struct fuel} : list Match :=
  match fuel with
  | 0 => []
  | S fuel' =>
      match search_from false r p pv l with
      | None => []
      | Some m =>
          let e := if m_start m <? m_end m then m_end m else S (m_end m) in
          let '(pv', l') := advance (e - p) pv l in
          m :: (if List.length l <? e - p then []
                else finditer_from fuel' r e pv' l')
      end
  end.

Definition finditer (r : re) (t : text) : list Match :=
  finditer_from (S (List.length t)) r 0 None t.

(** [m.group(1)], [None] when the group took no part in the match. *)
Definition group1 (t : text) (m : Match) : option text :=
  match m_g1 m with
  | Some (a, b) => Some (firstn (b - a) (skipn a t))
  | None => None
  end.

End Re.

(** ** Dictionaries

    A Python [dict] keeps its keys in insertion order, and the tiers iterate
    in that order: an association list with one entry per key, where setting
    a present key replaces its value in place and setting an absent key
    appends an entry. *)

Module Dict.

Definition t (V : Type) : Type := list (text * V).

Fixpoint get {V : Type} (d : t V) (k : text) : option V :=
  match d with
  | [] => None
  | (k', v) :: d' => if Str.eqb k' k then Some v else get d' k
  end.

(** [k in d] *)
Definition mem {V : Type} (d : t V) (k : text) : bool :=
  match get d k with
  | Some _ => true
  | None => false
  end.

(** [d[k] = v] *)
Fixpoint set {V : Type} (d : t V) (k : text) (v : V) : t V :=
  match d with
  | [] => [(k, v)]
  | (k', v') :: d' =>
      if Str.eqb k' k then (k', v) :: d' else (k', v') :: set d' k v
  end.

(** [d[k]] *)
Definition getitem {V : Type} (d : t V) (k : text) : result V :=
  match get d k with
  | Some v => Ok v
  | None => Raise KeyError
  end.

(** [d.get(k, default)] *)
Definition get_default {V : Type} (d : t V) (k : text) (default : V) : V :=
  match get d k with
  | Some v => v
  | None => default
  end.

Definition keys {V : Type} (d : t V) : list text := map fst d.
Definition values {V : Type} (d : t V) : list V := map snd d.
Definition items {V : Type} (d : t V) : list (text * V) := d.

End Dict.

(** [x in l] for a list of strings *)
Definition in_list (x : text) (l : list text) : bool :=
  existsb (Str.eqb x) l.

(** Attribute access on a value that may be [None]. *)
Definition deref {A : Type} (o : option A) : result A :=
  match o with
  | Some a => Ok a
  | None => Raise AttributeError
  end.

Definition is_some {A : Type} (o : option A) : bool :=
  match o with
  | Some _ => true
  | None => false
  end.

(** ** Cells of a data frame *)

(** A cell read from a spreadsheet: a string, the missing value [NaN], or
    another object, of which only its [str()] rendering matters. *)
Inductive Cell : Type :=
| CStr (s : text)
| CNaN
| CObj (shown : text).

(** [pd.isna(c)] *)
Definition isna (c : Cell) : bool :=
  match c with
  | CNaN => true
  | _ => false
  end.

(** [str(c)] *)
Definition cell_str (c : Cell) : text :=
  match c with
  | CStr s => s
  | CNaN => str "nan"
  | CObj shown => shown
  end.

(** [c.strip()]: only strings have the method. *)
Definition cell_strip (c : Cell) : result text :=
  match c with
  | CStr s => Ok (Str.strip s)
  | _ => Raise AttributeError
  end.

(** A row of the reference sheet, by column name. *)
Definition RefRow : Type := Dict.t Cell.

(** A row of the paper sheet, by position. *)
Definition PaperRow : Type := list Cell.

(** [row.iloc[i]] *)
Definition iloc (row : PaperRow) (i : nat) : result Cell :=
  match nth_error row i with
  | Some c => Ok c
  | None => Raise IndexError
  end.

(** ** Static tables *)

Definition CONFERENCE_MAPPINGS : Dict.t text :=
  [ (str "IJCNN", str "International Joint Conference on Neural Networks");
    (str "NAACL", str "Annual Meeting of the North American Chapter of the Association for Computational Linguistics");
    (str "ACL", str "Annual Meeting of the Association for Computational Linguistics");
    (str "ICCV", str "International Conference on Computer Vision");
    (str "CVPR", str "IEEE/CVF Conference on Computer Vision and Pattern Recognition");
    (str "EMNLP", str "Conference on Empirical Methods in Natural Language Processing");
    (str "ICML", str "International Conference on Machine Learning");
    (str "NeurIPS", str "Annual Conference on Neural Information Processing Systems");
    (str "AICCSA", str "ACS/IEEE International Conference on Computer Systems and Applications") ].

Definition ccf_a_conferences : list text :=
  [ str "International Conference on Computer Vision";
    str "IEEE/CVF Conference on Computer Vision and Pattern Recognition";
    str "Annual Conference on Neural Information Processing Systems";
    str "International Conference on Machine Learning";
    str "Annual Meeting of the Association for Computational Linguistics" ].

Definition ccf_b_conferences : list text :=
  [ str "Conference on Empirical Methods in Natural Language Processing";
    str "Annual Meeting of the North American Chapter of the Association for Computational Linguistics" ].

Definition ccf_c_conferences : list text :=
  [ str "International Joint Conference on Neural Networks" ].

(** The level the loop over [CONFERENCE_MAPPINGS.values()] assigns. *)
Definition ccf_level (conf_name : text) : text :=
  if in_list conf_name ccf_a_conferences then str "A"
  else if in_list conf_name ccf_b_conferences then str "B"
  else if in_list conf_name ccf_c_conferences then str "C"
  else str "".

Definition default_conference_types : Dict.t text :=
  fold_left (fun d conf_name => Dict.set d conf_name (str "Conference"))
            (Dict.values CONFERENCE_MAPPINGS) [].

Definition default_conference_levels : Dict.t text :=
  fold_left (fun d conf_name => Dict.set d conf_name (ccf_level conf_name))
            (Dict.values CONFERENCE_MAPPINGS) [].

Definition special_journals : list text :=
  [ str "Artificial Intelligence"; str "Neural Networks"; str "AI" ].

(** ** The catalog *)

Record Catalog : Type := mkCatalog {
  journal_fullnames : Dict.t text;
  journal_categories : Dict.t text;
  journal_types : Dict.t text;
  journal_levels : Dict.t text
}.

Definition empty_catalog : Catalog := mkCatalog [] [] [] [].

Inductive PublicationMapping : Type :=
| Frame (rows : list RefRow)
| Mapping (d : Dict.t text).

(** What one reference row contributes: short name, full name, type and
    level. *)
Definition row_fields (row : RefRow) : result (text * text * text * text) :=
  c_short <- Dict.getitem row (str "Journal Name") ;;
  short_name <- cell_strip c_short ;;
  c_full <- Dict.getitem row (str "Full Name of the Journal") ;;
  full_name <- cell_strip c_full ;;
  journal_type <-
    match Dict.get row (str "Type") with
    | Some c => if isna c then Ok (str "Unknown") else cell_strip c
    | None => Ok (str "Unknown")
    end ;;
  journal_level <-
    match Dict.get row (str "Level") with
    | Some c =>
        if isna c then Ok (str "")
        else level <- cell_strip c ;;
             if in_list level [str "A"; str "B"; str "C"] then Ok level
             else Ok (str "")
    | None => Ok (str "")
    end ;;
  Ok (short_name, full_name, journal_type, journal_level).

(** The body of the loop over the reference rows. *)
Definition add_row (cat : Catalog) (row : RefRow) : result Catalog :=
  f <- row_fields row ;;
  let '(short_name, full_name, journal_type, journal_level) := f in
  Ok (mkCatalog
        (Dict.set (journal_fullnames cat) short_name full_name)
        (Dict.set (journal_categories cat) full_name full_name)
        (Dict.set (journal_types cat) full_name journal_type)
        (Dict.set (journal_levels cat) full_name journal_level)).

Fixpoint add_rows (cat : Catalog) (rows : list RefRow) : result Catalog :=
  match rows with
  | [] => Ok cat
  | row :: rows' => cat' <- add_row cat row ;; add_rows cat' rows'
  end.

(** The body of the loop that merges [CONFERENCE_MAPPINGS]. *)
Definition add_conference (cat : Catalog) (e : text * text) : Catalog :=
  let '(abbr, fullname) := e in
  if negb (Dict.mem (journal_categories cat) fullname) then
    mkCatalog
      (if negb (Dict.mem (journal_fullnames cat) abbr)
       then Dict.set (journal_fullnames cat) abbr fullname
       else journal_fullnames cat)
      (Dict.set (journal_categories cat) fullname fullname)
      (Dict.set (journal_types cat) fullname
         (Dict.get_default default_conference_types fullname (str "Conference")))
      (Dict.set (journal_levels cat) fullname
         (Dict.get_default default_conference_levels fullname (str "")))
  else cat.

Definition merge_conferences (cat : Catalog) : Catalog :=
  fold_left add_conference (Dict.items CONFERENCE_MAPPINGS) cat.

(** The tables as they stand once the reference data is indexed.  The
    first row of a data frame is skipped; a plain dictionary is used as it
    is, with type "Unknown" and no level. *)
Definition index_reference (publication_mapping : PublicationMapping)
  : result Catalog :=
  match publication_mapping with
  | Frame rows => add_rows empty_catalog (tl rows)
  | Mapping d =>
      let vs := Dict.values d in
      Ok (mkCatalog d
            (fold_left (fun c v => Dict.set c v v) vs [])
            (fold_left (fun c v => Dict.set c v (str "Unknown")) vs [])
            (fold_left (fun c v => Dict.set c v (str "")) vs []))
  end.

(** The tables [first_analysis] prepares before it looks at a paper. *)
Definition build_catalog (publication_mapping : PublicationMapping)
  : result Catalog :=
  cat <- index_reference publication_mapping ;;
  Ok (merge_conferences cat).

(** ** Patterns *)

Module Pat.
Import Re.

(** [[^,.()]] *)
Definition plain : re := noneof ",.()".

(** [(?:the\s+)?] *)
Definition the_opt : re := Opt (Seq (lit (str "the")) (Plus space)).

(** [[Aa]ccepted\s+(?:at|in|to|for)\s+(?:the\s+)?(G)] *)
Definition accepted_at (G : re) : re :=
  seqs [oneof "Aa"; lit (str "ccepted"); Plus space;
        alts [str "at"; str "in"; str "to"; str "for"]; Plus space;
        the_opt; Group G].

(** [[Aa]ccepted\s+(?:by|for)\s+(?:the\s+)?(G)] *)
Definition accepted_by (G : re) : re :=
  seqs [oneof "Aa"; lit (str "ccepted"); Plus space;
        alts [str "by"; str "for"]; Plus space; the_opt; Group G].

(** [[Pp]ublished\s+in\s+(?:the\s+)?(G)] *)
Definition published_in (G : re) : re :=
  seqs [oneof "Pp"; lit (str "ublished"); Plus space; lit (str "in");
        Plus space; the_opt; Group G].

(** [[Tt]o\s+appear\s+in\s+(?:the\s+)?(G)] *)
Definition to_appear_in (G : re) : re :=
  seqs [oneof "Tt"; lit (str "o"); Plus space; lit (str "appear");
        Plus space; lit (str "in"); Plus space; the_opt; Group G].

(** [[Tt]o\s+be\s+published\s+in\s+(?:the\s+)?(G)] *)
Definition to_be_published_in (G : re) : re :=
  seqs [oneof "Tt"; lit (str "o"); Plus space; lit (str "be"); Plus space;
        lit (str "published"); Plus space; lit (str "in"); Plus space;
        the_opt; Group G].

(** [[^,.()]*NAME[^,.()]*] *)
Definition around (journal_name : text) : re :=
  seqs [Star plain; lit journal_name; Star plain].

(** [(?:^|\W)(NAME)(?:\W|$)] *)
Definition special (journal_name : text) : re :=
  seqs [Alt Bol nonword; Group (lit journal_name); Alt nonword Eol].

(** [\bNAME\b] *)
Definition whole_word (name : text) : re :=
  seqs [WordB; lit name; WordB].

(** [NAME\s*\([A-Z]+\)] *)
Definition with_abbr (journal_name : text) : re :=
  seqs [lit journal_name; Star space; Chr "("; Plus AZ; Chr ")"].

(** [[({\[]?\bNAME\b[)}\]]?] *)
Definition bracketed (short_name : text) : re :=
  seqs [Opt (oneof "({["); WordB; lit short_name; WordB; Opt (oneof ")}]")].

(** [\bNAME\d{4}\b] *)
Definition with_year (short_name : text) : re :=
  seqs [WordB; lit short_name; Rep 4 digit; WordB].

(** [[A-Z]{n,}] *)
Definition caps (n : nat) : re := Seq (Rep n AZ) (Star AZ).

(** The pattern for an abbreviation in parentheses: one or more characters
    other than an opening parenthesis, optional white space, an opening
    parenthesis, group 1, a closing parenthesis.  Group 1 is [[A-Z]{2,}]
    followed optionally by white space, a dash, white space and digits,
    each of the four optional.  The source lists three dashes; only the
    ASCII hyphen can occur in an ASCII text. *)
Definition parenthesized : re :=
  seqs [Plus (noneof "("); Star space; Chr "(";
        Group (Seq (caps 2)
                   (Opt (seqs [Star space; Opt (oneof "-"); Star space;
                               Star digit])));
        Chr ")"].

(** [\b([A-Z]{3,}(?:\s*\d{4})?)\b] *)
Definition standalone : re :=
  seqs [WordB;
        Group (Seq (caps 3) (Opt (Seq (Star space) (Rep 4 digit))));
        WordB].

(** [\b([A-Z]{2,}\d{4})\b] *)
Definition abbr_year : re :=
  seqs [WordB; Group (Seq (caps 2) (Rep 4 digit)); WordB].

(** [\b([A-Z]{2,})\s+\d{4}\b] *)
Definition abbr_space_year : re :=
  seqs [WordB; Group (caps 2); Plus space; Rep 4 digit; WordB].

End Pat.

(** ** The exact-match test *)

Definition prefixes : list text :=
  [ str "Conference on"; str "Journal of"; str "Symposium on";
    str "Workshop on" ].

Definition conference_indicators : list text :=
  [ str "conference on"; str "symposium on"; str "workshop on";
    str "international"; str "journal of"; str "transactions on" ].

Definition accepted_patterns (journal_name : text) : list Re.re :=
  [ Pat.accepted_at (Pat.around journal_name);
    Pat.accepted_by (Pat.around journal_name);
    Pat.published_in (Pat.around journal_name);
    Pat.to_appear_in (Pat.around journal_name) ].

(** [m.span(1)]: [(-1, -1)] when the group took no part. *)
Definition span1 (m : Re.Match) : Z * Z :=
  match Re.m_g1 m with
  | Some (a, b) => (Z.of_nat a, Z.of_nat b)
  | None => ((-1)%Z, (-1)%Z)
  end.

(** The loop over [accepted_patterns]: [true] when it returns [True]. *)
Fixpoint accepted_phrase (t journal_name : text) (patterns : list Re.re)
  : result bool :=
  match patterns with
  | [] => Ok false
  | pattern :: patterns' =>
      match Re.search false pattern t with
      | Some m =>
          g <- deref (Re.group1 t m) ;;
          let matched_text := Str.strip g in
          if Str.eqb (Str.lower matched_text) (Str.lower journal_name)
             || is_some (Re.search true (Pat.whole_word journal_name)
                                   matched_text)
          then Ok true
          else accepted_phrase t journal_name patterns'
      | None => accepted_phrase t journal_name patterns'
      end
  end.

Definition is_exact_match (t journal_name : text) : result bool :=
  if in_list journal_name special_journals then
    let pattern := Pat.special journal_name in
    if is_some (Re.search false pattern t) then
      m <- deref (Re.search false pattern t) ;;
      let '(start, _) := span1 m in
      if existsb
           (fun prefix =>
              Str.endswith
                (Str.strip
                   (Str.slice t
                      (Z.max 0 (start - Z.of_nat (List.length prefix) - 5))
                      start))
                prefix)
           prefixes
      then Ok false
      else Ok true
    else Ok false
  else if Str.contains (Str.lower t) (Str.lower journal_name) then
    accepted <- accepted_phrase t journal_name (accepted_patterns journal_name) ;;
    if accepted then Ok true
    else if is_some (Re.search true (Pat.with_abbr journal_name) t) then Ok true
    else if is_some (Re.search true (Pat.whole_word journal_name) t) then
      let surrounding_text := Str.lower t in
      let journal_pos := Str.find surrounding_text (Str.lower journal_name) in
      if existsb
           (fun indicator =>
              let pre_text :=
                Str.strip (Str.slice surrounding_text
                                     (Z.max 0 (journal_pos - 50)) journal_pos) in
              Str.endswith pre_text indicator)
           conference_indicators
      then Ok false
      else Ok true
    else Ok false
  else Ok false.

(** ** Extraction of conference names *)

Definition extract_patterns : list Re.re :=
  [ Pat.accepted_at (Re.Plus Pat.plain);
    Pat.accepted_by (Re.Plus Pat.plain);
    Pat.published_in (Re.Plus Pat.plain);
    Pat.to_appear_in (Re.Plus Pat.plain);
    Pat.to_be_published_in (Re.Plus Pat.plain);
    Pat.parenthesized;
    Pat.standalone;
    Pat.abbr_year;
    Pat.abbr_space_year ].

(** The inner loop, over the matches of one pattern. *)
Fixpoint collect_names (t : text) (ms : list Re.Match) (results : list text)
  : result (list text) :=
  match ms with
  | [] => Ok results
  | m :: ms' =>
      g <- deref (Re.group1 t m) ;;
      let conf_name := Str.strip g in
      if negb (Str.eqb conf_name []) && (2 <? List.length conf_name)
         && negb (Str.isdigit conf_name)
      then collect_names t ms' (results ++ [conf_name])
      else collect_names t ms' results
  end.

Fixpoint extract_loop (t : text) (patterns : list Re.re) (results : list text)
  : result (list text) :=
  match patterns with
  | [] => Ok results
  | pattern :: patterns' =>
      results' <- collect_names t (Re.finditer pattern t) results ;;
      extract_loop t patterns' results'
  end.

Definition extract_conference_name (t : text) : result (list text) :=
  extract_loop t extract_patterns [].

(** ** Resolution of one paper *)

Inductive MatchType : Type :=
| ExactFullName
| ExactShortName
| ShortNameWithYear
| ConferenceNameMatch
| ConferenceAbbrMatch.

(** The tag the program writes in the [Match_Type] column. *)
Definition match_type_tag (m : MatchType) : text :=
  match m with
  | ExactFullName => str "Exact Full Name"
  | ExactShortName => str "Exact Short Name"
  | ShortNameWithYear => str "Short Name with Year"
  | ConferenceNameMatch => str "Conference Name Match"
  | ConferenceAbbrMatch => str "Conference Abbr Match"
  end.

(** A row of the result frame.  [Keywords_Hit] is [None] until
    [second_analysis] adds the column. *)
Record MatchRecord : Type := mkRecord {
  Title : text;
  Subject : text;
  URL : text;
  Publication : text;
  Publication_Type : text;
  Publication_Level : text;
  Match_Type : MatchType;
  Keywords_Hit : option text
}.

(** Tier 1: the first full name, in the order of the keys, that passes the
    exact-match test. *)
Fixpoint tier1 (subject : text) (full_names : list text)
  : result (option text) :=
  match full_names with
  | [] => Ok None
  | full_name :: full_names' =>
      b <- is_exact_match subject full_name ;;
      if b then Ok (Some full_name) else tier1 subject full_names'
  end.

(** Tier 2: the first upper-case short name that stands in the text as a
    word, or with a year attached. *)
Fixpoint tier2 (subject : text) (items : list (text * text))
  : option (text * MatchType) :=
  match items with
  | [] => None
  | (short_name, full_name) :: items' =>
      if Str.isupper short_name && Str.contains subject short_name then
        if is_some (Re.search false (Pat.bracketed short_name) subject)
        then Some (full_name, ExactShortName)
        else if is_some (Re.search false (Pat.with_year short_name) subject)
        then Some (full_name, ShortNameWithYear)
        else tier2 subject items'
      else tier2 subject items'
  end.

(** The inner loop of tier 3, over the static table. *)
Fixpoint abbr_match (conf_name : text) (items : list (text * text))
  : option text :=
  match items with
  | [] => None
  | (abbr, full_name) :: items' =>
      if is_some (Re.search true (Pat.whole_word abbr) conf_name)
         || is_some (Re.search true (Pat.with_year abbr) conf_name)
         || Str.startswith conf_name abbr
      then Some full_name
      else abbr_match conf_name items'
  end.

(** Tier 3: the first extracted name that is, or carries, a known
    abbreviation. *)
Fixpoint tier3 (conf_names : list text) : result (option (text * MatchType)) :=
  match conf_names with
  | [] => Ok None
  | conf_name :: conf_names' =>
      if Dict.mem CONFERENCE_MAPPINGS conf_name then
        full_name <- Dict.getitem CONFERENCE_MAPPINGS conf_name ;;
        Ok (Some (full_name, ConferenceNameMatch))
      else
        match abbr_match conf_name (Dict.items CONFERENCE_MAPPINGS) with
        | Some full_name => Ok (Some (full_name, ConferenceAbbrMatch))
        | None => tier3 conf_names'
        end
  end.

(** The three tiers in order; a later tier runs only when the earlier ones
    found nothing. *)
Definition resolve_venue (cat : Catalog) (subject : text)
  : result (option (text * MatchType)) :=
  r1 <- tier1 subject (Dict.keys (journal_categories cat)) ;;
  match r1 with
  | Some full_name => Ok (Some (full_name, ExactFullName))
  | None =>
      match tier2 subject (Dict.items (journal_fullnames cat)) with
      | Some r2 => Ok (Some r2)
      | None =>
          conf_names <- extract_conference_name subject ;;
          tier3 conf_names
      end
  end.

(** [str(row.iloc[i]) if len(row) > i else ""] *)
Definition cell_at (row : PaperRow) (i : nat) : result text :=
  if i <? List.length row then c <- iloc row i ;; Ok (cell_str c)
  else Ok (str "").

(** The body of the loop over the papers: the record appended to
    [matches], if any. *)
Definition resolve (cat : Catalog) (row : PaperRow)
  : result (option MatchRecord) :=
  title <- cell_at row 0 ;;
  subject <- cell_at row 2 ;;
  url <- cell_at row 3 ;;
  if Str.contains subject (str "Comments") then
    r <- resolve_venue cat subject ;;
    match r with
    | Some (matched_publication, match_type) =>
        let journal_type :=
          Dict.get_default (journal_types cat) matched_publication
                           (str "Unknown") in
        let journal_level :=
          Dict.get_default (journal_levels cat) matched_publication (str "") in
        Ok (Some (mkRecord title subject url matched_publication journal_type
                           journal_level match_type None))
    | None => Ok None
    end
  else Ok None.

Fixpoint resolve_all (cat : Catalog) (df : list PaperRow)
  : result (list MatchRecord) :=
  match df with
  | [] => Ok []
  | row :: df' =>
      r <- resolve cat row ;;
      matches <- resolve_all cat df' ;;
      match r with
      | Some m => Ok (m :: matches)
      | None => Ok matches
      end
  end.

Definition first_analysis (df : list PaperRow)
           (publication_mapping : PublicationMapping)
  : result (list MatchRecord) :=
  cat <- build_catalog publication_mapping ;;
  resolve_all cat df.

(** ** Keyword scoring *)

(** The keywords of the list that stand in the title as a word, in the
    order of the list. *)
Definition keyword_hits (title : text) (keyword_list : list text) : list text :=
  filter (fun keyword =>
            is_some (Re.search true (Pat.whole_word keyword) title))
         keyword_list.

Definition set_keywords_hit (row : MatchRecord) (v : text) : MatchRecord :=
  mkRecord (Title row) (Subject row) (URL row) (Publication row)
           (Publication_Type row) (Publication_Level row) (Match_Type row)
           (Some v).

(** The body of the loop of [second_analysis]. *)
Definition score (keywords : Dict.t (list text)) (row : MatchRecord)
  : result MatchRecord :=
  let pub := Publication row in
  if Dict.mem keywords pub then
    keyword_list <- Dict.getitem keywords pub ;;
    let hits := keyword_hits (Title row) keyword_list in
    match hits with
    | [] => Ok row
    | _ => Ok (set_keywords_hit row (Str.join (str ", ") hits))
    end
  else Ok row.

Fixpoint score_all (keywords : Dict.t (list text)) (rows : list MatchRecord)
  : result (list MatchRecord) :=
  match rows with
  | [] => Ok []
  | row :: rows' =>
      row' <- score keywords row ;;
      rows'' <- score_all keywords rows' ;;
      Ok (row' :: rows'')
  end.

Definition second_analysis (result_df : list MatchRecord)
           (keywords : Dict.t (list text)) : result (list MatchRecord) :=
  match result_df with
  | [] => Ok result_df
  | _ =>
      score_all keywords
                (map (fun row => set_keywords_hit row (str "")) result_df)
  end.

(** ** The keyword table *)

(** [s.split(sep)] for a separator of one character. *)
Fixpoint split (sep : ascii) (s : text) : list text :=
  match s with
  | [] => [[]]
  | c :: s' =>
      if Char.eqb c sep then [] :: split sep s'
      else match split sep s' with
           | piece :: pieces => (c :: piece) :: pieces
           | [] => [[c]]
           end
  end.

(** [[kw.strip() for kw in str(c).split(',') if kw.strip()]] *)
Definition parse_keywords (c : Cell) : list text :=
  filter (fun kw => negb (Str.eqb kw []))
         (map Str.strip (split "," (cell_str c))).

(** The keyword sheet: its column names and its rows. *)
Record KeywordFrame : Type := mkKeywordFrame {
  kw_columns : list text;
  kw_rows : list RefRow
}.

(** The body of the loop over the keyword rows, for the keyword column
    [column]. *)
Definition add_keywords (column : text) (keywords : Dict.t (list text))
           (row : RefRow) : result (Dict.t (list text)) :=
  c_name <- Dict.getitem row (str "Full Name of the Journal") ;;
  if isna c_name then Ok keywords
  else
    c_kw <- Dict.getitem row column ;;
    if isna c_kw then Ok keywords
    else
      journal_name <- cell_strip c_name ;;
      let keyword_list := parse_keywords c_kw in
      match keyword_list with
      | [] => Ok keywords
      | _ =>
          if Dict.mem keywords journal_name then
            old <- Dict.getitem keywords journal_name ;;
            Ok (Dict.set keywords journal_name (old ++ keyword_list))
          else Ok (Dict.set keywords journal_name keyword_list)
      end.

Fixpoint add_keyword_rows (column : text) (keywords : Dict.t (list text))
         (rows : list RefRow) : result (Dict.t (list text)) :=
  match rows with
  | [] => Ok keywords
  | row :: rows' =>
      keywords' <- add_keywords column keywords row ;;
      add_keyword_rows column keywords' rows'
  end.

(** The keywords made up when the sheet has no keyword column: the
    abbreviation of each conference, in lower case. *)
Definition default_keywords : Dict.t (list text) :=
  fold_left
    (fun keywords e =>
       let '(abbr, fullname) := e in
       if negb (Dict.mem keywords fullname)
       then Dict.set keywords fullname [Str.lower abbr]
       else keywords)
    (Dict.items CONFERENCE_MAPPINGS) [].

(** The keyword dictionary before the lists are deduplicated. *)
Definition collect_keywords (keywords_df : KeywordFrame)
  : result (Dict.t (list text)) :=
  let has c := in_list c (kw_columns keywords_df) in
  if has (str "Full Name of the Journal") && has (str "keyword-English") then
    add_keyword_rows (str "keyword-English") [] (kw_rows keywords_df)
  else if has (str "Full Name of the Journal") && has (str "keyword-Chinese")
  then
    add_keyword_rows (str "keyword-Chinese") [] (kw_rows keywords_df)
  else Ok default_keywords.

(** [prepare_mapping_data].  [set_list l] stands for [list(set(l))], whose
    order Python does not fix. *)
Definition prepare_mapping_data (set_list : list text -> list text)
           (publication_df : PublicationMapping) (keywords_df : KeywordFrame)
  : result (PublicationMapping * Dict.t (list text)) :=
  keywords <- collect_keywords keywords_df ;;
  Ok (publication_df, map (fun e => (fst e, set_list (snd e))) keywords).

(** ** The report *)

(** [s.ljust(width)] *)
Definition ljust (width : nat) (s : text) : text :=
  s ++ repeat " "%char (width - List.length s).

(** [(x[:35] + '...') if len(x) > 35 else x] *)
Definition display_title (x : text) : text :=
  if 35 <? List.length x then firstn 35 x ++ str "..." else x.

(** A number in an f-string. *)
Definition nat_text (n : nat) : text :=
  str (NilEmpty.string_of_uint (Nat.to_uint n)).

Definition newline : text := ["010"%char].

(** A line of the first table. *)
Definition match_line (row : MatchRecord) : text :=
  ljust 40 (display_title (Title row)) ++ ljust 45 (Publication row)
  ++ ljust 8 (Publication_Type row) ++ ljust 10 (Publication_Level row)
  ++ ljust 15 (match_type_tag (Match_Type row)).

(** A line of the second table, for a row with the hit text [hit]. *)
Definition hits_line (row : MatchRecord) (hit : text) : text :=
  ljust 40 (display_title (Title row)) ++ ljust 45 (Publication row)
  ++ ljust 8 (Publication_Type row) ++ ljust 10 (Publication_Level row)
  ++ ljust 15 hit.

(** [result_df['Keywords Hit']]: the column, when the frame has it. *)
Fixpoint keywords_hit_column (result_df : list MatchRecord)
  : result (list (MatchRecord * text)) :=
  match result_df with
  | [] => Ok []
  | row :: result_df' =>
      match Keywords_Hit row with
      | Some hit =>
          column <- keywords_hit_column result_df' ;;
          Ok ((row, hit) :: column)
      | None => Raise KeyError
      end
  end.

(** [format_and_display_results]: what is printed, one text for each call
    of [print], and how the function ends. *)
Definition format_and_display_results (result_df : list MatchRecord)
  : list text * result unit :=
  let head :=
    [ newline ++ repeat "="%char 120;
      repeat " "%char 50 ++ str "Academic Paper Publication Analysis Report";
      repeat "="%char 120 ++ newline;
      str "【Publication Matching Analysis】Identifying paper publication/acceptance status from Comments info:"
      ++ newline ] in
  match result_df with
  | [] =>
      (head ++ [str "  No matches found"; newline ++ repeat "="%char 120],
       Ok tt)
  | _ =>
      let first_table :=
        head
        ++ [ str "Found matched records: "
             ++ nat_text (List.length result_df) ++ newline;
             ljust 40 (str "Paper Title")
             ++ ljust 45 (str "Publication Category")
             ++ ljust 8 (str "Type") ++ ljust 10 (str "Level")
             ++ ljust 15 (str "Match Type");
             repeat "-"%char 120 ]
        ++ map match_line result_df
        ++ [ newline ++ repeat "-"%char 120;
             newline
             ++ str "【Keyword Relevance Analysis】Evaluating paper title relevance to target journal/conference topics:"
             ++ newline ] in
      match keywords_hit_column result_df with
      | Raise e => (first_table, Raise e)
      | Ok column =>
          let total_rows := List.length result_df in
          let hits_count :=
            List.length
              (filter (fun e => 0 <? List.length (snd e)) column) in
          let result_with_hits :=
            filter (fun e => negb (Str.eqb (snd e) [])) column in
          (first_table
           ++ [ str "  Total records: " ++ nat_text total_rows
                ++ str ", Records with keyword hits: "
                ++ nat_text hits_count ++ newline ]
           ++ (if 0 <? List.length result_with_hits then
                 [ ljust 40 (str "Paper Title")
                   ++ ljust 45 (str "Publication Category")
                   ++ ljust 8 (str "Type") ++ ljust 10 (str "Level")
                   ++ ljust 15 (str "Keywords Hit");
                   repeat "-"%char 120 ]
                 ++ map (fun e => hits_line (fst e) (snd e)) result_with_hits
               else [str "  No keyword hits found"])
           ++ [newline ++ repeat "="%char 120],
           Ok tt)
      end
  end.

(** * Vocabulary of the properties *)

(** Patterns in which group 1 takes part in every match. *)
Fixpoint sets_group (r : Re.re) : bool :=
  match r with
  | Re.Group _ => true
  | Re.Seq a b => sets_group a || sets_group b
  | Re.Alt a b => sets_group a && sets_group b
  | _ => false
  end.

(** What a successful run through a pattern tells about group 1 at the
    point where the continuation took over. *)
Definition group_post {A : Type} (r : Re.re) (k : Re.st -> option A)
           (x : Re.st) (y : A) : Prop :=
  exists x', k x' = Some y
             /\ (is_some (Re.g1 x) = true -> is_some (Re.g1 x') = true)
             /\ (sets_group r = true -> is_some (Re.g1 x') = true).

(** The text of a cell [i] of a paper row, empty when the row is shorter. *)
Definition cell_text (row : PaperRow) (i : nat) : text :=
  match nth_error row i with
  | Some c => cell_str c
  | None => str ""
  end.

(** The record [resolve] builds once a venue is found. *)
Definition record_for (cat : Catalog) (row : PaperRow) (venue : text)
           (match_type : MatchType) : MatchRecord :=
  mkRecord (cell_text row 0) (cell_text row 2) (cell_text row 3) venue
           (Dict.get_default (journal_types cat) venue (str "Unknown"))
           (Dict.get_default (journal_levels cat) venue (str ""))
           match_type None.

(** The catalog [first_analysis] works with when the reference sheet has
    no data rows: the static table alone. *)
Definition static_catalog : Catalog := merge_conferences empty_catalog.

(** The position after the characters of [s], when the subject continues
    with them. *)
Fixpoint skip_lit (ic : bool) (s : text) (x : Re.st) : option Re.st :=
  match s with
  | [] => Some x
  | c :: s' =>
      match Re.rest x with
      | y :: r =>
          if Re.chr_eq ic c y
          then skip_lit ic s' (Re.mkst (S (Re.pos x)) (Some y) r (Re.g1 x))
          else None
      | [] => None
      end
  end.


(** A reference sheet with a label row and one journal, "Neural Networks". *)
Definition sample_reference : list RefRow :=
  [ [ (str "Journal Name", CStr (str "Journal Name"));
      (str "Full Name of the Journal", CStr (str "Full Name"));
      (str "Type", CStr (str "Type"));
      (str "Level", CStr (str "Level")) ];
    [ (str "Journal Name", CStr (str "NN"));
      (str "Full Name of the Journal", CStr (str "Neural Networks"));
      (str "Type", CStr (str "Journal"));
      (str "Level", CStr (str "B")) ] ].

Definition sample_catalog : Catalog :=
  match build_catalog (Frame sample_reference) with
  | Ok cat => cat
  | Raise _ => empty_catalog
  end.

(** The keys of a dictionary after a key is set. *)
Fixpoint add_key (ks : list text) (k : text) : list text :=
  match ks with
  | [] => [k]
  | k' :: ks' => if Str.eqb k' k then ks else k' :: add_key ks' k
  end.

(** The three tables keyed by full name have the same keys, in the same
    order. *)
Definition same_keys (cat : Catalog) : Prop :=
  Dict.keys (journal_types cat) = Dict.keys (journal_categories cat)
  /\ Dict.keys (journal_levels cat) = Dict.keys (journal_categories cat).

(** The pairs of the static table whose full name the catalog lacks, and
    among them those whose abbreviation it lacks too. *)
Definition new_venues (cat : Catalog) (l : list (text * text))
  : list (text * text) :=
  filter (fun e => negb (Dict.mem (journal_categories cat) (snd e))) l.

Definition new_abbrs (cat : Catalog) (l : list (text * text))
  : list (text * text) :=
  filter (fun e => negb (Dict.mem (journal_categories cat) (snd e))
                   && negb (Dict.mem (journal_fullnames cat) (fst e))) l.

Definition static_type (full : text) : text :=
  Dict.get_default default_conference_types full (str "Conference").

Definition static_level (full : text) : text :=
  Dict.get_default default_conference_levels full (str "").

(** What the merge does to the four tables: entries are only appended. *)
Definition merged (cat : Catalog) (l : list (text * text)) : Catalog :=
  mkCatalog
    (journal_fullnames cat ++ new_abbrs cat l)
    (journal_categories cat
       ++ map (fun e => (snd e, snd e)) (new_venues cat l))
    (journal_types cat
       ++ map (fun e => (snd e, static_type (snd e))) (new_venues cat l))
    (journal_levels cat
       ++ map (fun e => (snd e, static_level (snd e))) (new_venues cat l)).

Definition last_opt (l : text) : option ascii := hd_error (rev l).

(** [\b] between the text before and the text after. *)
Definition boundary (before after : text) : bool :=
  xorb (Re.is_word_opt (last_opt before)) (Re.is_word_opt (hd_error after)).

(** [keyword] stands in [title] as a word, letter case apart: the title has
    a part equal to the keyword up to case, with a word boundary on each
    side. *)
Definition standalone_in (keyword title : text) : Prop :=
  exists a w b,
    title = a ++ w ++ b
    /\ Str.lower w = Str.lower keyword
    /\ boundary a (w ++ b) = true
    /\ boundary (a ++ w) b = true.

(** A keyword as the table holds it: not empty, no white space at either
    end, no comma. *)
Definition clean_keyword (kw : text) : Prop :=
  kw <> []
  /\ (forall c, hd_error kw = Some c -> Char.is_space c = false)
  /\ (forall c, hd_error (rev kw) = Some c -> Char.is_space c = false)
  /\ ~ In ","%char kw.

(** [s] is a contiguous part of [t]. *)
Definition part_of (s t : text) : Prop := exists a b, t = a ++ s ++ b.

(** The row gives the keyword [kw] to the journal [journal_name] through
    the keyword column [column]. *)
Definition contributes (column : text) (row : RefRow) (journal_name kw : text)
  : Prop :=
  exists name c_kw,
    Dict.get row (str "Full Name of the Journal") = Some (CStr name)
    /\ Str.strip name = journal_name
    /\ Dict.get row column = Some c_kw
    /\ isna c_kw = false
    /\ In kw (parse_keywords c_kw).

(** The keyword [kw] is listed for the journal in the table. *)
Definition listed (keywords : Dict.t (list text)) (journal_name kw : text)
  : Prop :=
  exists l, Dict.get keywords journal_name = Some l /\ In kw l.

(** A keyword row the loop gets through: the name is missing, or the
    keywords are, or the name is a string. *)
Definition keyword_row_ok (column : text) (row : RefRow) : bool :=
  match Dict.get row (str "Full Name of the Journal") with
  | None => false
  | Some CNaN => true
  | Some c_name =>
      match Dict.get row column with
      | None => false
      | Some CNaN => true
      | Some _ => match c_name with CStr _ => true | _ => false end
      end
  end.

(** A row without the column [column]. *)
Definition drop_column (column : text) (row : RefRow) : RefRow :=
  filter (fun e => negb (Str.eqb (fst e) column)) row.

(** The keyword column [prepare_mapping_data] reads, if any: the English
    one when the sheet has it, else the Chinese one. *)
Definition keyword_column (keywords_df : KeywordFrame) : option text :=
  let has c := in_list c (kw_columns keywords_df) in
  if has (str "Full Name of the Journal") && has (str "keyword-English")
  then Some (str "keyword-English")
  else if has (str "Full Name of the Journal") && has (str "keyword-Chinese")
  then Some (str "keyword-Chinese")
  else None.

(** One way to order [list(set(l))]: first occurrences, in order. *)
Definition dedup (l : list text) : list text :=
  rev (nodup (list_eq_dec ascii_dec) (rev l)).

(** A keyword sheet with both keyword columns. *)
Definition sample_keywords : KeywordFrame :=
  mkKeywordFrame
    [str "Full Name of the Journal"; str "keyword-Chinese";
     str "keyword-English"]
    [ [ (str "Full Name of the Journal", CStr (str " Neural Networks "));
        (str "keyword-Chinese", CStr (str "x"));
        (str "keyword-English", CStr (str "neural, deep learning ,")) ];
      [ (str "Full Name of the Journal", CNaN);
        (str "keyword-Chinese", CStr (str "y"));
        (str "keyword-English", CStr (str "skipped")) ];
      [ (str "Full Name of the Journal", CStr (str "Neural Networks"));
        (str "keyword-Chinese", CNaN);
        (str "keyword-English", CStr (str "neural,spiking")) ];
      [ (str "Full Name of the Journal", CStr (str "Pattern Recognition"));
        (str "keyword-Chinese", CStr (str "z"));
        (str "keyword-English", CObj (str "2024")) ] ].

(** The table keeps its shape through the loop: one entry per journal,
    each with a list of clean keywords that is not empty. *)
Definition table_ok (keywords : Dict.t (list text)) : Prop :=
  NoDup (Dict.keys keywords)
  /\ Forall (fun e => snd e <> [] /\ Forall clean_keyword (snd e)) keywords.

(** A reference row [first_analysis] can index: both names are strings,
    and the type and the level are strings, missing or absent. *)
Definition ref_row_ok (row : RefRow) : bool :=
  match Dict.get row (str "Journal Name"),
        Dict.get row (str "Full Name of the Journal") with
  | Some (CStr _), Some (CStr _) =>
      match Dict.get row (str "Type") with
      | Some (CObj _) => false
      | _ => match Dict.get row (str "Level") with
             | Some (CObj _) => false
             | _ => true
             end
      end
  | _, _ => false
  end.

(** The four levels a catalog may hold. *)
Definition levels : list text := [str "A"; str "B"; str "C"; str ""].

(** A catalog as [first_analysis] builds it: the tables keyed by full name
    agree on their keys, every category is its own name, every short name
    leads to a full name of the catalog, every conference of the static
    table is there, and the levels are restricted. *)
Definition catalog_ok (cat : Catalog) : Prop :=
  same_keys cat
  /\ (forall k v, Dict.get (journal_categories cat) k = Some v -> v = k)
  /\ (forall short full,
         In (short, full) (journal_fullnames cat) ->
         Dict.mem (journal_categories cat) full = true)
  /\ (forall abbr full,
         In (abbr, full) CONFERENCE_MAPPINGS ->
         Dict.mem (journal_categories cat) full = true)
  /\ (forall k v, Dict.get (journal_levels cat) k = Some v -> In v levels).

(** The catalog while the reference data is indexed, before the static
    table is merged. *)
Definition index_ok (cat : Catalog) : Prop :=
  same_keys cat
  /\ (forall k v, Dict.get (journal_categories cat) k = Some v -> v = k)
  /\ (forall short full,
         In (short, full) (journal_fullnames cat) ->
         Dict.mem (journal_categories cat) full = true)
  /\ (forall k v, Dict.get (journal_levels cat) k = Some v -> In v levels).

(** A name the extractor keeps: longer than two characters, not a number,
    trimmed, and a contiguous part of the text. *)
Definition candidate_of (t conf_name : text) : Prop :=
  2 < List.length conf_name
  /\ Str.isdigit conf_name = false
  /\ (forall c, hd_error conf_name = Some c -> Char.is_space c = false)
  /\ (forall c, hd_error (rev conf_name) = Some c -> Char.is_space c = false)
  /\ part_of conf_name t.

(** A paper row [first_analysis] looks at: its third cell contains
    "Comments". *)
Definition eligible (row : PaperRow) : bool :=
  Str.contains (cell_text row 2) (str "Comments").

(** The text [second_analysis] writes in [Keywords_Hit] for a record. *)
Definition hits_text (keywords : Dict.t (list text)) (row : MatchRecord)
  : text :=
  Str.join (str ", ")
           match Dict.get keywords (Publication row) with
           | Some keyword_list => keyword_hits (Title row) keyword_list
           | None => []
           end.

(** * Properties *)

(** ** Strings *)

Lemma char_eqb_eq (a b : ascii) : Char.eqb a b = true <-> a = b.
Proof. apply Ascii.eqb_eq. Qed.

Lemma char_eqb_refl (a : ascii) : Char.eqb a a = true.
Proof. apply char_eqb_eq; reflexivity. Qed.

Lemma str_eqb_eq (a b : text) : Str.eqb a b = true <-> a = b.
Proof.
  revert b; induction a as [|x a IH]; intros [|y b]; simpl;
    try (split; [discriminate | discriminate]); try tauto.
  rewrite andb_true_iff, char_eqb_eq, IH.
  split; [intros [-> ->]; reflexivity | intros H; inversion H; auto].
Qed.

Lemma str_eqb_refl (a : text) : Str.eqb a a = true.
Proof. apply str_eqb_eq; reflexivity. Qed.

Lemma str_eqb_neq (a b : text) : Str.eqb a b = false <-> a <> b.
Proof.
  rewrite <- str_eqb_eq. destruct (Str.eqb a b); split; congruence.
Qed.

Lemma str_eqb_sym (a b : text) : Str.eqb a b = Str.eqb b a.
Proof.
  destruct (Str.eqb a b) eqn:E.
  - apply str_eqb_eq in E; subst; symmetry; apply str_eqb_refl.
  - apply str_eqb_neq in E. symmetry; apply str_eqb_neq; congruence.
Qed.

Lemma startswith_spec (s p : text) :
  Str.startswith s p = true <-> exists r, s = p ++ r.
Proof.
  revert s; induction p as [|x p IH]; intros s; simpl.
  - split; [exists s; reflexivity | intros _; reflexivity].
  - destruct s as [|y s].
    + split; [discriminate | intros [r H]; discriminate].
    + rewrite andb_true_iff, char_eqb_eq, IH. split.
      * intros [-> [r ->]]; exists r; reflexivity.
      * intros [r H]; inversion H; subst; split; [reflexivity | exists r; reflexivity].
Qed.


(** [sub in s] holds exactly when [sub] is a contiguous part of [s]. *)
Lemma contains_spec (s sub : text) :
  Str.contains s sub = true <-> exists a b, s = a ++ sub ++ b.
Proof.
  induction s as [|c s IH].
  - simpl. rewrite orb_false_r, startswith_spec. split.
    + intros [r H]; exists [], r; exact H.
    + intros [a [b H]]. destruct a; [exists b; exact H | discriminate].
  - cbn [Str.contains]. rewrite orb_true_iff, startswith_spec, IH. split.
    + intros [[r H] | [a [b H]]].
      * exists [], r; exact H.
      * exists (c :: a), b; rewrite H; reflexivity.
    + intros [a [b H]]. destruct a as [|x a].
      * left; exists b; exact H.
      * right; inversion H; subst; exists a, b; reflexivity.
Qed.


(** ** Dictionaries *)

Lemma dict_get_set_same {V : Type} (d : Dict.t V) (k : text) (v : V) :
  Dict.get (Dict.set d k v) k = Some v.
Proof.
  induction d as [|[k' v'] d IH]; simpl.
  - rewrite str_eqb_refl; reflexivity.
  - destruct (Str.eqb k' k) eqn:E; simpl; rewrite E; [reflexivity | exact IH].
Qed.

Lemma dict_get_set_other {V : Type} (d : Dict.t V) (k k' : text) (v : V) :
  k <> k' -> Dict.get (Dict.set d k v) k' = Dict.get d k'.
Proof.
  intros N. induction d as [|[k0 v0] d IH]; simpl.
  - apply str_eqb_neq in N; rewrite N; reflexivity.
  - destruct (Str.eqb k0 k) eqn:E; simpl.
    + apply str_eqb_eq in E; subst k0.
      apply str_eqb_neq in N; rewrite N; reflexivity.
    + destruct (Str.eqb k0 k'); [reflexivity | exact IH].
Qed.

(** Setting an absent key appends it: insertion order is kept. *)
Lemma dict_set_absent {V : Type} (d : Dict.t V) (k : text) (v : V) :
  Dict.get d k = None -> Dict.set d k v = d ++ [(k, v)].
Proof.
  induction d as [|[k0 v0] d IH]; simpl; [reflexivity|].
  destruct (Str.eqb k0 k); [discriminate|].
  intros H; rewrite (IH H); reflexivity.
Qed.

Lemma dict_get_app {V : Type} (d e : Dict.t V) (k : text) :
  Dict.get (d ++ e) k =
  match Dict.get d k with
  | Some v => Some v
  | None => Dict.get e k
  end.
Proof.
  induction d as [|[k0 v0] d IH]; simpl; [reflexivity|].
  destruct (Str.eqb k0 k); [reflexivity | exact IH].
Qed.

Lemma dict_mem_get {V : Type} (d : Dict.t V) (k : text) :
  Dict.mem d k = true -> exists v, Dict.get d k = Some v.
Proof.
  unfold Dict.mem. destruct (Dict.get d k) as [v|]; [exists v; reflexivity | discriminate].
Qed.

Lemma dict_mem_false {V : Type} (d : Dict.t V) (k : text) :
  Dict.mem d k = false <-> Dict.get d k = None.
Proof.
  unfold Dict.mem. destruct (Dict.get d k); split; congruence.
Qed.

Lemma dict_get_in_keys {V : Type} (d : Dict.t V) (k : text) :
  Dict.get d k <> None <-> In k (Dict.keys d).
Proof.
  induction d as [|[k0 v0] d IH]; simpl.
  - split; [congruence | tauto].
  - destruct (Str.eqb k0 k) eqn:E.
    + apply str_eqb_eq in E; split; [auto | congruence].
    + apply str_eqb_neq in E. rewrite IH. split; [auto | intros [H|H]; [congruence | exact H]].
Qed.

Lemma dict_get_in {V : Type} (d : Dict.t V) (k : text) (v : V) :
  Dict.get d k = Some v -> In (k, v) d.
Proof.
  induction d as [|[k0 v0] d IH]; simpl; [discriminate|].
  destruct (Str.eqb k0 k) eqn:E.
  - apply str_eqb_eq in E; intros H; inversion H; subst; auto.
  - auto.
Qed.

Lemma in_list_spec (x : text) (l : list text) : in_list x l = true <-> In x l.
Proof.
  unfold in_list. rewrite existsb_exists. split.
  - intros [y [H E]]. apply str_eqb_eq in E; subst; exact H.
  - intros H; exists x; split; [exact H | apply str_eqb_refl].
Qed.

(** ** The matcher *)

Section RunGroup.

Variable ic : bool.
Variable A : Type.

Lemma eat_group (p : ascii -> bool) (r : Re.re) k x (y : A) :
  sets_group r = false ->
  Re.eat p k x = Some y -> group_post r k x y.
Proof.
  intros Hr H. unfold Re.eat in H.
  destruct (Re.rest x) as [|c l]; [discriminate|].
  destruct (p c); [|discriminate].
  eexists; split; [exact H|]. simpl; split; [auto | congruence].
Qed.

Lemma star_loop_group (body : (Re.st -> option A) -> Re.st -> option A) :
  (forall k x y, body k x = Some y ->
                 exists x', k x' = Some y
                            /\ (is_some (Re.g1 x) = true ->
                                is_some (Re.g1 x') = true)) ->
  forall n k x y,
    Re.star_loop body k n x = Some y ->
    exists x', k x' = Some y
               /\ (is_some (Re.g1 x) = true -> is_some (Re.g1 x') = true).
Proof.
  intros Hb n; induction n as [|n IH]; intros k x y H; simpl in H.
  - exists x; auto.
  - destruct (body _ x) as [z|] eqn:E.
    + inversion H; subst z; clear H.
      apply Hb in E as (x1 & E1 & M1).
      destruct (Re.pos x <? Re.pos x1); [|discriminate].
      apply IH in E1 as (x2 & E2 & M2). exists x2; auto.
    + exists x; auto.
Qed.

Lemma run_group (r : Re.re) :
  forall k x (y : A), Re.run ic r k x = Some y -> group_post r k x y.
Proof.
  induction r as [|c|neg items|a IHa b IHb|a IHa b IHb|a IHa|a IHa| | |];
    intros k x y H; simpl in H.
  - exists x; repeat split; auto; discriminate.
  - eapply eat_group; eauto.
  - eapply eat_group; eauto.
  - apply IHa in H as (x1 & H1 & M1 & S1).
    apply IHb in H1 as (x2 & H2 & M2 & S2).
    exists x2; repeat split; auto. simpl; intros Hs.
    apply orb_true_iff in Hs as [Hs|Hs]; auto.
  - destruct (Re.run ic a k x) as [z|] eqn:E.
    + inversion H; subst z. apply IHa in E as (x1 & H1 & M1 & S1).
      exists x1; repeat split; auto. simpl; intros Hs.
      apply andb_true_iff in Hs as [Hs _]; auto.
    + apply IHb in H as (x1 & H1 & M1 & S1).
      exists x1; repeat split; auto. simpl; intros Hs.
      apply andb_true_iff in Hs as [_ Hs]; auto.
  - apply star_loop_group in H.
    + destruct H as (x1 & H1 & M1). exists x1; repeat split; auto; discriminate.
    + intros k' x' y' H'. apply IHa in H' as (x1 & H1 & M1 & _). eauto.
  - apply IHa in H as (x1 & H1 & _ & _).
    eexists; split; [exact H1|]. simpl; auto.
  - destruct (Re.pos x =? 0); [|discriminate].
    exists x; repeat split; auto; discriminate.
  - destruct (Re.at_end x); [|discriminate].
    exists x; repeat split; auto; discriminate.
  - destruct (Re.at_boundary x); [|discriminate].
    exists x; repeat split; auto; discriminate.
Qed.

End RunGroup.

Lemma match_at_group (ic : bool) (r : Re.re) p pv l m :
  sets_group r = true ->
  Re.match_at ic r p pv l = Some m -> is_some (Re.m_g1 m) = true.
Proof.
  intros Hs H. unfold Re.match_at in H.
  destruct (Re.run ic r _ _) as [y|] eqn:E; [|discriminate].
  inversion H; subst m; simpl.
  apply run_group in E as (x' & E' & _ & S'). inversion E'; subst; auto.
Qed.

Lemma search_from_group (ic : bool) (r : Re.re) l :
  sets_group r = true ->
  forall p pv m,
    Re.search_from ic r p pv l = Some m -> is_some (Re.m_g1 m) = true.
Proof.
  intros Hs. induction l as [|c l IH]; intros p pv m H; simpl in H.
  - destruct (Re.match_at ic r p pv []) as [m'|] eqn:E; [|discriminate].
    inversion H; subst; eapply match_at_group; eauto.
  - destruct (Re.match_at ic r p pv (c :: l)) as [m'|] eqn:E.
    + inversion H; subst; eapply match_at_group; eauto.
    + eapply IH; eauto.
Qed.

Lemma finditer_from_group (r : Re.re) fuel :
  sets_group r = true ->
  forall p pv l,
    Forall (fun m => is_some (Re.m_g1 m) = true)
           (Re.finditer_from fuel r p pv l).
Proof.
  intros Hs. induction fuel as [|fuel IH]; intros p pv l; simpl.
  - constructor.
  - destruct (Re.search_from false r p pv l) as [m|] eqn:E; [|constructor].
    destruct (Re.advance _ pv l) as [pv' l'].
    constructor.
    + eapply search_from_group; eauto.
    + destruct (_ <? _); [constructor | apply IH].
Qed.

Lemma group1_some (t : text) (m : Re.Match) :
  is_some (Re.m_g1 m) = true -> exists g, Re.group1 t m = Some g.
Proof.
  unfold Re.group1. destruct (Re.m_g1 m) as [[a b]|]; [eauto | discriminate].
Qed.

(** ** No exception escapes the work on one record *)

Lemma accepted_phrase_ok (t journal_name : text) (patterns : list Re.re) :
  Forall (fun p => sets_group p = true) patterns ->
  exists b, accepted_phrase t journal_name patterns = Ok b.
Proof.
  induction 1 as [|pattern patterns Hp _ IH]; simpl; [eauto|].
  destruct (Re.search false pattern t) as [m|] eqn:E; [|exact IH].
  apply search_from_group in E; [|exact Hp].
  destruct (group1_some t m E) as [g ->]. simpl.
  destruct (_ || _); [eauto | exact IH].
Qed.

Lemma accepted_patterns_group (journal_name : text) :
  Forall (fun p => sets_group p = true) (accepted_patterns journal_name).
Proof. repeat constructor. Qed.

Lemma is_exact_match_ok (t journal_name : text) :
  exists b, is_exact_match t journal_name = Ok b.
Proof.
  unfold is_exact_match.
  destruct (in_list journal_name special_journals).
  - destruct (Re.search false (Pat.special journal_name) t) as [m|]; simpl;
      [|eauto].
    destruct (span1 m) as [start e].
    match goal with |- context [if ?c then _ else _] => destruct c end; eauto.
  - destruct (Str.contains _ _); [|eauto].
    destruct (accepted_phrase_ok t journal_name _
                (accepted_patterns_group journal_name)) as [b ->]. simpl.
    destruct b; [eauto|].
    destruct (is_some (Re.search true (Pat.with_abbr journal_name) t)); [eauto|].
    destruct (is_some (Re.search true (Pat.whole_word journal_name) t)); [|eauto].
    match goal with |- context [if ?c then _ else _] => destruct c end; eauto.
Qed.

Lemma tier1_ok (subject : text) (full_names : list text) :
  exists r, tier1 subject full_names = Ok r.
Proof.
  induction full_names as [|n l IH]; simpl; [eauto|].
  destruct (is_exact_match_ok subject n) as [b ->]; simpl.
  destruct b; [eauto | exact IH].
Qed.

Lemma collect_names_ok (t : text) (ms : list Re.Match) :
  Forall (fun m => is_some (Re.m_g1 m) = true) ms ->
  forall results, exists l, collect_names t ms results = Ok l.
Proof.
  induction 1 as [|m ms Hm _ IH]; intros results; simpl; [eauto|].
  destruct (group1_some t m Hm) as [g ->]; simpl.
  destruct (_ && _); apply IH.
Qed.

Lemma extract_loop_ok (t : text) (patterns : list Re.re) :
  Forall (fun p => sets_group p = true) patterns ->
  forall results, exists l, extract_loop t patterns results = Ok l.
Proof.
  induction 1 as [|pattern patterns Hp _ IH]; intros results; simpl; [eauto|].
  destruct (collect_names_ok t _
              (finditer_from_group pattern (S (List.length t)) Hp 0 None t)
              results) as [l Hl].
  unfold Re.finditer. rewrite Hl. simpl. apply IH.
Qed.

Lemma extract_conference_name_ok (t : text) :
  exists l, extract_conference_name t = Ok l.
Proof.
  apply extract_loop_ok. repeat constructor.
Qed.

Lemma tier3_ok (conf_names : list text) :
  exists r, tier3 conf_names = Ok r.
Proof.
  induction conf_names as [|n l IH]; [simpl; eauto|].
  cbn [tier3].
  destruct (Dict.mem CONFERENCE_MAPPINGS n) eqn:E.
  - apply dict_mem_get in E as [v Hv]. unfold Dict.getitem; rewrite Hv.
    cbn [bind]; eauto.
  - destruct (abbr_match n _); [eauto | exact IH].
Qed.

Lemma resolve_venue_ok (cat : Catalog) (subject : text) :
  exists r, resolve_venue cat subject = Ok r.
Proof.
  unfold resolve_venue.
  destruct (tier1_ok subject (Dict.keys (journal_categories cat))) as [r1 ->].
  simpl. destruct r1; [eauto|].
  destruct (tier2 subject _); [eauto|].
  destruct (extract_conference_name_ok subject) as [l ->]. simpl.
  apply tier3_ok.
Qed.

Lemma cell_at_ok (row : PaperRow) (i : nat) :
  cell_at row i = Ok (cell_text row i).
Proof.
  unfold cell_at, cell_text, iloc.
  destruct (i <? List.length row) eqn:E.
  - apply Nat.ltb_lt in E. apply nth_error_Some in E.
    destruct (nth_error row i); [reflexivity | congruence].
  - apply Nat.ltb_ge in E. apply nth_error_None in E. rewrite E; reflexivity.
Qed.

Lemma resolve_unfold (cat : Catalog) (row : PaperRow) :
  resolve cat row =
  if Str.contains (cell_text row 2) (str "Comments") then
    r <- resolve_venue cat (cell_text row 2) ;;
    match r with
    | Some (venue, match_type) => Ok (Some (record_for cat row venue match_type))
    | None => Ok None
    end
  else Ok None.
Proof.
  unfold resolve. rewrite !cell_at_ok. simpl.
  destruct (Str.contains _ _); [|reflexivity].
  destruct (resolve_venue cat _) as [[[v mt]|]|]; reflexivity.
Qed.

Lemma resolve_ok (cat : Catalog) (row : PaperRow) :
  exists r, resolve cat row = Ok r.
Proof.
  rewrite resolve_unfold. destruct (Str.contains _ _); [|eauto].
  destruct (resolve_venue_ok cat (cell_text row 2)) as [r ->]. simpl.
  destruct r as [[v mt]|]; eauto.
Qed.

Lemma resolve_all_ok (cat : Catalog) (df : list PaperRow) :
  exists ms, resolve_all cat df = Ok ms /\ List.length ms <= List.length df.
Proof.
  induction df as [|row df (ms & IH & L)]; simpl; [eauto|].
  destruct (resolve_ok cat row) as [r ->]. rewrite IH. simpl.
  destruct r; eexists; split; try reflexivity; simpl; lia.
Qed.

Lemma score_ok (keywords : Dict.t (list text)) (row : MatchRecord) :
  exists row',
    score keywords row = Ok row'
    /\ Title row' = Title row /\ Subject row' = Subject row
    /\ URL row' = URL row /\ Publication row' = Publication row
    /\ Publication_Type row' = Publication_Type row
    /\ Publication_Level row' = Publication_Level row
    /\ Match_Type row' = Match_Type row.
Proof.
  unfold score. destruct (Dict.mem keywords (Publication row)) eqn:E.
  - apply dict_mem_get in E as [kws Hk]. unfold Dict.getitem; rewrite Hk. simpl.
    destruct (keyword_hits _ kws); eexists; split; try reflexivity;
      simpl; repeat split.
  - eexists; split; [reflexivity | repeat split].
Qed.

Lemma score_all_ok (keywords : Dict.t (list text)) (rows : list MatchRecord) :
  exists rows', score_all keywords rows = Ok rows'
                /\ List.length rows' = List.length rows.
Proof.
  induction rows as [|row rows (rows' & IH & L)]; simpl; [eauto|].
  destruct (score_ok keywords row) as (row' & -> & _). rewrite IH. simpl.
  eexists; split; [reflexivity | simpl; lia].
Qed.

(** ** The tiers *)

Lemma tier1_first (subject : text) (l1 : list text) (full : text)
      (l2 : list text) :
  (forall n, In n l1 -> is_exact_match subject n = Ok false) ->
  is_exact_match subject full = Ok true ->
  tier1 subject (l1 ++ full :: l2) = Ok (Some full).
Proof.
  intros Hl Hf. induction l1 as [|n l1 IH]; simpl.
  - rewrite Hf; reflexivity.
  - rewrite (Hl n (or_introl eq_refl)). simpl.
    apply IH. intros m Hm; apply Hl; right; exact Hm.
Qed.

Lemma tier1_some_inv (subject : text) (full_names : list text) (v : text) :
  tier1 subject full_names = Ok (Some v) ->
  exists l1 l2,
    full_names = l1 ++ v :: l2
    /\ (forall n, In n l1 -> is_exact_match subject n = Ok false)
    /\ is_exact_match subject v = Ok true.
Proof.
  induction full_names as [|n l IH]; simpl; [discriminate|].
  destruct (is_exact_match subject n) as [[|]|e] eqn:E; simpl; try discriminate.
  - intros H; inversion H; subst. exists [], l; simpl; repeat split; tauto.
  - intros H. destruct (IH H) as (l1 & l2 & -> & Hl & Hv).
    exists (n :: l1), l2; repeat split; auto.
    intros m [<-|Hm]; auto.
Qed.

Lemma tier1_none_inv (subject : text) (full_names : list text) :
  tier1 subject full_names = Ok None ->
  forall n, In n full_names -> is_exact_match subject n = Ok false.
Proof.
  induction full_names as [|n l IH]; simpl; [tauto|].
  destruct (is_exact_match subject n) as [[|]|e] eqn:E; simpl; try discriminate.
  intros H m [<-|Hm]; auto.
Qed.

Lemma tier2_some_inv (subject : text) (items : list (text * text))
      (full : text) (mt : MatchType) :
  tier2 subject items = Some (full, mt) ->
  exists short,
    In (short, full) items
    /\ Str.isupper short = true
    /\ Str.contains subject short = true
    /\ (mt = ExactShortName \/ mt = ShortNameWithYear).
Proof.
  induction items as [|[short_name full_name] items IH]; simpl; [discriminate|].
  destruct (Str.isupper short_name && Str.contains subject short_name) eqn:G.
  - apply andb_true_iff in G as [G1 G2].
    destruct (is_some (Re.search false (Pat.bracketed short_name) subject)).
    + intros H; inversion H; subst. exists short_name; auto.
    + destruct (is_some (Re.search false (Pat.with_year short_name) subject)).
      * intros H; inversion H; subst. exists short_name; auto.
      * intros H. destruct (IH H) as (s & Hs & R). exists s; auto.
  - intros H. destruct (IH H) as (s & Hs & R). exists s; auto.
Qed.

Lemma tier2_absent (subject : text) (items : list (text * text)) :
  (forall short full, In (short, full) items ->
                      Str.contains subject short = false) ->
  tier2 subject items = None.
Proof.
  intros H. destruct (tier2 subject items) as [[full mt]|] eqn:E; [|reflexivity].
  apply tier2_some_inv in E as (short & Hin & _ & Hc & _).
  rewrite (H short full Hin) in Hc; discriminate.
Qed.

Lemma tier3_types (conf_names : list text) (v : text) (mt : MatchType) :
  tier3 conf_names = Ok (Some (v, mt)) ->
  mt = ConferenceNameMatch \/ mt = ConferenceAbbrMatch.
Proof.
  induction conf_names as [|n l IH]; [discriminate|].
  cbn [tier3].
  destruct (Dict.mem CONFERENCE_MAPPINGS n).
  - destruct (Dict.getitem CONFERENCE_MAPPINGS n); cbn [bind]; [|discriminate].
    intros H; inversion H; auto.
  - destruct (abbr_match n _); [|exact IH].
    intros H; inversion H; auto.
Qed.

(** [resolve_venue] as a cascade over the outcomes of the tiers. *)
Lemma resolve_venue_cascade (cat : Catalog) (subject : text) :
  resolve_venue cat subject =
  match tier1 subject (Dict.keys (journal_categories cat)) with
  | Ok (Some full_name) => Ok (Some (full_name, ExactFullName))
  | Ok None =>
      match tier2 subject (Dict.items (journal_fullnames cat)) with
      | Some r2 => Ok (Some r2)
      | None => conf_names <- extract_conference_name subject ;; tier3 conf_names
      end
  | Raise e => Raise e
  end.
Proof.
  unfold resolve_venue.
  destruct (tier1 subject _) as [[v|]|e]; reflexivity.
Qed.

(** Which tiers ran, read off the match type of the outcome. *)
Lemma resolve_venue_inv (cat : Catalog) (subject v : text) (mt : MatchType) :
  resolve_venue cat subject = Ok (Some (v, mt)) ->
  match mt with
  | ExactFullName =>
      tier1 subject (Dict.keys (journal_categories cat)) = Ok (Some v)
  | ExactShortName | ShortNameWithYear =>
      tier1 subject (Dict.keys (journal_categories cat)) = Ok None
      /\ tier2 subject (Dict.items (journal_fullnames cat)) = Some (v, mt)
  | ConferenceNameMatch | ConferenceAbbrMatch =>
      tier1 subject (Dict.keys (journal_categories cat)) = Ok None
      /\ tier2 subject (Dict.items (journal_fullnames cat)) = None
  end.
Proof.
  rewrite resolve_venue_cascade.
  destruct (tier1 subject _) as [[f|]|e]; [| |discriminate].
  - intros H; inversion H; subst; reflexivity.
  - destruct (tier2 subject _) as [[f2 mt2]|] eqn:E2.
    + intros H; inversion H; subst.
      apply tier2_some_inv in E2 as (_ & _ & _ & _ & [-> | ->]); auto.
    + destruct (extract_conference_name subject) as [l|e]; [|discriminate].
      cbn [bind]. intros H. apply tier3_types in H as [-> | ->]; auto.
Qed.

(** C2: a paper whose comments field does not contain the literal substring
    "Comments" yields no record and no error, whatever venue names or
    abbreviations the text contains, and contributes nothing to the
    result. *)
Theorem no_comments_no_match (cat : Catalog) (row : PaperRow) :
  Str.contains (cell_text row 2) (str "Comments") = false ->
  resolve cat row = Ok None
  /\ forall df, resolve_all cat (row :: df) = resolve_all cat df.
Proof.
  intros H.
  assert (R : resolve cat row = Ok None)
    by (rewrite resolve_unfold, H; reflexivity).
  split; [exact R|]. intros df. simpl. rewrite R. simpl.
  destruct (resolve_all cat df); reflexivity.
Qed.

Lemma no_comments_no_match_witness :
  let row := [CStr (str "A title"); CStr (str "x");
              CStr (str "Accepted at CVPR 2025, International Conference on Machine Learning (ICML)");
              CStr (str "http://arxiv.org/abs/1")] in
  Str.contains (cell_text row 2) (str "Comments") = false
  /\ resolve static_catalog row = Ok None.
Proof.
  intros row. split; [reflexivity|].
  apply (no_comments_no_match static_catalog row). reflexivity.
Defined.

(** C8: resolving a paper row and scoring a match record never raise.  A
    row yields one record or none, a frame of rows yields at most one
    record per row, and scoring returns every record, with its hit list. *)
Theorem per_record_work_never_raises (cat : Catalog)
        (keywords : Dict.t (list text)) :
  (forall row, exists r, resolve cat row = Ok r)
  /\ (forall df, exists ms, resolve_all cat df = Ok ms
                            /\ List.length ms <= List.length df)
  /\ (forall rec, exists rec', score keywords rec = Ok rec')
  /\ (forall df, exists df', second_analysis df keywords = Ok df'
                             /\ List.length df' = List.length df).
Proof.
  split; [intros row; apply resolve_ok|].
  split; [intros df; apply resolve_all_ok|].
  split.
  - intros rec. destruct (score_ok keywords rec) as (rec' & H & _); eauto.
  - intros [|r df]; [exists []; auto|].
    unfold second_analysis.
    destruct (score_all_ok keywords
                (map (fun row => set_keywords_hit row (str "")) (r :: df)))
      as (df' & H & L).
    exists df'; split; [exact H|]. rewrite L, length_map; reflexivity.
Qed.

(** C10: cells missing from a paper row read as the empty string.  A row
    with fewer than three cells has an empty comments field and is excluded;
    with fewer than four cells any record it yields has an empty URL; with
    no cells the title is empty.  Resolution returns without error. *)
Theorem missing_cells_default_empty (cat : Catalog) (row : PaperRow) :
  (List.length row < 3 ->
   cell_at row 2 = Ok (str "") /\ resolve cat row = Ok None)
  /\ (List.length row < 4 ->
      cell_at row 3 = Ok (str "")
      /\ forall rec, resolve cat row = Ok (Some rec) -> URL rec = str "")
  /\ (List.length row < 1 ->
      cell_at row 0 = Ok (str "")
      /\ forall rec, resolve cat row = Ok (Some rec) -> Title rec = str "")
  /\ exists r, resolve cat row = Ok r.
Proof.
  assert (E : forall i, List.length row <= i -> cell_text row i = str "").
  { intros i L. unfold cell_text. apply nth_error_None in L. rewrite L.
    reflexivity. }
  repeat split.
  - rewrite cell_at_ok, E by lia; reflexivity.
  - rewrite resolve_unfold, E by lia; reflexivity.
  - rewrite cell_at_ok, E by lia; reflexivity.
  - intros rec. rewrite resolve_unfold.
    destruct (Str.contains _ _); [|discriminate].
    destruct (resolve_venue cat _) as [[[v mt]|]|]; try discriminate.
    cbn [bind]. intros R; inversion R; subst. simpl. apply E; lia.
  - rewrite cell_at_ok, E by lia; reflexivity.
  - intros rec. rewrite resolve_unfold.
    destruct (Str.contains _ _); [|discriminate].
    destruct (resolve_venue cat _) as [[[v mt]|]|]; try discriminate.
    cbn [bind]. intros R; inversion R; subst. simpl. apply E; lia.
  - apply resolve_ok.
Qed.

Lemma missing_cells_default_empty_witness :
  (cell_at [] 2 = Ok (str "") /\ resolve static_catalog [] = Ok None)
  /\ (let row := [CStr (str "T"); CNaN; CStr (str "Comments: ICML 2024")] in
      cell_at row 3 = Ok (str "")
      /\ exists rec, resolve static_catalog row = Ok (Some rec)
                     /\ URL rec = str "").
Proof.
  split.
  - apply (missing_cells_default_empty static_catalog []). simpl; lia.
  - intros row.
    destruct (missing_cells_default_empty static_catalog row)
      as (_ & H & _ & _).
    destruct H as [H1 H2]; [simpl; lia|]. split; [exact H1|].
    eexists; split; [vm_compute; reflexivity|reflexivity].
Defined.

(** C1: for an eligible paper the tiers run in strict order and the first
    that succeeds decides.  If a full name of the catalog passes the
    exact-match test, the record names the first such name in the order of
    the catalog with match type ExactFullName, whatever the other tiers
    would find.  Venue resolution is the cascade of the three tiers, and the
    match type of a record tells which ran: an abbreviation match means the
    full-name tier found nothing, an extracted-conference match that both
    earlier tiers found nothing. *)
Theorem tiers_in_strict_order (cat : Catalog) (row : PaperRow) :
  let subject := cell_text row 2 in
  let full_names := Dict.keys (journal_categories cat) in
  let short_names := Dict.items (journal_fullnames cat) in
  Str.contains subject (str "Comments") = true ->
  (forall l1 full l2,
      full_names = l1 ++ full :: l2 ->
      (forall n, In n l1 -> is_exact_match subject n = Ok false) ->
      is_exact_match subject full = Ok true ->
      resolve cat row = Ok (Some (record_for cat row full ExactFullName)))
  /\ resolve_venue cat subject =
     match tier1 subject full_names with
     | Ok (Some full) => Ok (Some (full, ExactFullName))
     | Ok None =>
         match tier2 subject short_names with
         | Some r2 => Ok (Some r2)
         | None => names <- extract_conference_name subject ;; tier3 names
         end
     | Raise e => Raise e
     end
  /\ (forall rec,
         resolve cat row = Ok (Some rec) ->
         rec = record_for cat row (Publication rec) (Match_Type rec)
         /\ match Match_Type rec with
            | ExactFullName =>
                exists l1 l2,
                  full_names = l1 ++ Publication rec :: l2
                  /\ (forall n, In n l1 -> is_exact_match subject n = Ok false)
                  /\ is_exact_match subject (Publication rec) = Ok true
            | ExactShortName | ShortNameWithYear =>
                tier1 subject full_names = Ok None
                /\ tier2 subject short_names
                   = Some (Publication rec, Match_Type rec)
            | ConferenceNameMatch | ConferenceAbbrMatch =>
                tier1 subject full_names = Ok None
                /\ tier2 subject short_names = None
            end).
Proof.
  intros subject full_names short_names Helig.
  split; [|split].
  - intros l1 full l2 Hk Hl Hf.
    rewrite resolve_unfold. fold subject. rewrite Helig.
    rewrite resolve_venue_cascade. fold full_names. rewrite Hk.
    rewrite (tier1_first subject l1 full l2 Hl Hf). reflexivity.
  - apply resolve_venue_cascade.
  - intros rec. rewrite resolve_unfold. fold subject. rewrite Helig.
    destruct (resolve_venue cat subject) as [[[v mt]|]|] eqn:E;
      cbn [bind]; try discriminate.
    intros R; inversion R; subst rec; clear R. cbn [Publication Match_Type record_for].
    split; [reflexivity|].
    apply resolve_venue_inv in E. destruct mt; auto.
    apply tier1_some_inv in E. exact E.
Qed.

Lemma tiers_in_strict_order_witness :
  let cat := static_catalog in
  let row := [CStr (str "A paper"); CNaN;
              CStr (str "Comments: Accepted at the International Conference on Machine Learning (ICML 2024)");
              CStr (str "http://arxiv.org/abs/2")] in
  let venue := str "International Conference on Machine Learning" in
  resolve cat row = Ok (Some (record_for cat row venue ExactFullName))
  /\ tier2 (cell_text row 2) (Dict.items (journal_fullnames cat))
     = Some (venue, ExactShortName)
  /\ exists l1 l2,
      Dict.keys (journal_categories cat) = l1 ++ venue :: l2
      /\ (forall n, In n l1 -> is_exact_match (cell_text row 2) n = Ok false).
Proof.
  intros cat row venue.
  destruct (tiers_in_strict_order cat row eq_refl) as (H1 & _ & H3).
  assert (R : resolve cat row = Ok (Some (record_for cat row venue ExactFullName))).
  { apply (H1 (firstn 6 (Dict.keys (journal_categories cat))) venue
              (skipn 7 (Dict.keys (journal_categories cat)))).
    - reflexivity.
    - intros n Hn. vm_compute in Hn.
      repeat (destruct Hn as [<-|Hn]; [vm_compute; reflexivity|]).
      destruct Hn.
    - vm_compute; reflexivity. }
  split; [exact R|]. split; [vm_compute; reflexivity|].
  destruct (H3 _ R) as (_ & l1 & l2 & Hk & Hl & _).
  exists l1, l2; split; assumption.
Defined.

(** C9: tier 2 is case-sensitive.  A match of type ExactShortName or
    ShortNameWithYear comes from a short name of the catalog that is upper
    case and occurs in the comments text as a substring, character for
    character; when no short name occurs so, tier 2 finds nothing, as for
    the text "Comments: cvpr 2025" against the static table. *)
Theorem tier2_case_sensitive (subject : text) (items : list (text * text)) :
  (forall full mt,
      tier2 subject items = Some (full, mt) ->
      exists short,
        In (short, full) items
        /\ Str.isupper short = true
        /\ (exists a b, subject = a ++ short ++ b)
        /\ (mt = ExactShortName \/ mt = ShortNameWithYear))
  /\ ((forall short full a b,
          In (short, full) items -> subject <> a ++ short ++ b) ->
      tier2 subject items = None)
  /\ tier2 (str "Comments: cvpr 2025")
           (Dict.items (journal_fullnames static_catalog)) = None
  /\ tier2 (str "Comments: Cvpr2025 and cvpr 2025")
           (Dict.items (journal_fullnames static_catalog)) = None.
Proof.
  split; [|split; [|split]].
  - intros full mt H.
    apply tier2_some_inv in H as (short & Hin & Hu & Hc & Hm).
    exists short; repeat split; auto. apply contains_spec; exact Hc.
  - intros H. apply tier2_absent. intros short full Hin.
    destruct (Str.contains subject short) eqn:E; [|reflexivity].
    apply contains_spec in E as (a & b & E). destruct (H short full a b Hin E).
  - vm_compute; reflexivity.
  - vm_compute; reflexivity.
Qed.

Lemma tier2_case_sensitive_witness :
  (exists short,
      In (short, str "IEEE/CVF Conference on Computer Vision and Pattern Recognition")
         (Dict.items (journal_fullnames static_catalog))
      /\ Str.isupper short = true
      /\ (exists a b, str "Comments: CVPR 2025" = a ++ short ++ b)
      /\ (ExactShortName = ExactShortName \/ ExactShortName = ShortNameWithYear))
  /\ tier2 (str "Comments: cvpr 2025") [(str "CVPR", str "Venue")] = None.
Proof.
  split.
  - refine (proj1 (tier2_case_sensitive (str "Comments: CVPR 2025")
                     (Dict.items (journal_fullnames static_catalog))) _ _ _).
    vm_compute; reflexivity.
  - refine (proj1 (proj2 (tier2_case_sensitive (str "Comments: cvpr 2025")
                            [(str "CVPR", str "Venue")])) _).
    intros short full a b [H|[]] E. inversion H; subst.
    assert (C : Str.contains (str "Comments: cvpr 2025") (str "CVPR") = true)
      by (apply contains_spec; exists a, b; exact E).
    vm_compute in C. discriminate.
Defined.

(** ** Literals in a pattern *)

Lemma run_lit (ic : bool) (A : Type) (s : text) :
  forall (k : Re.st -> option A) x,
    Re.run ic (Re.lit s) k x =
    match skip_lit ic s x with
    | Some x' => k x'
    | None => None
    end.
Proof.
  induction s as [|c s IH]; intros k x; simpl; [reflexivity|].
  unfold Re.eat. destruct (Re.rest x) as [|y r]; [reflexivity|].
  destruct (Re.chr_eq ic c y); [apply IH | reflexivity].
Qed.

Lemma skip_lit_exact (s : text) :
  forall x x',
    skip_lit false s x = Some x' ->
    Re.rest x = s ++ Re.rest x'
    /\ Re.pos x' = Re.pos x + List.length s
    /\ Re.g1 x' = Re.g1 x.
Proof.
  induction s as [|c s IH]; intros x x' H; simpl in H.
  - inversion H; subst; simpl; repeat split; lia.
  - destruct (Re.rest x) as [|y r] eqn:R; [discriminate|].
    change (Re.chr_eq false c y) with (Char.eqb c y) in H.
    destruct (Char.eqb c y) eqn:E; [|discriminate].
    apply char_eqb_eq in E; subst y.
    apply IH in H as (H1 & H2 & H3). simpl in *.
    repeat split; [rewrite H1; reflexivity | lia | exact H3].
Qed.

(** ** The guard for special venues *)

(** Where the special pattern matches from a position, group 1 spans an
    occurrence of the name. *)
Lemma special_tail (name : text) (x y : Re.st) :
  Re.run false (Re.Seq (Re.Group (Re.lit name))
                       (Re.Alt Re.nonword Re.Eol))
         (fun z => Some z) x = Some y ->
  Re.g1 y = Some (Re.pos x, Re.pos x + List.length name)
  /\ exists r, Re.rest x = name ++ r.
Proof.
  cbn [Re.run]. rewrite run_lit.
  destruct (skip_lit false name x) as [x'|] eqn:E; [|discriminate].
  apply skip_lit_exact in E as (H1 & H2 & _).
  unfold Re.nonword, Re.eat. cbn [Re.run Re.pos Re.prev Re.rest Re.g1].
  unfold Re.eat; cbn [Re.rest Re.pos Re.g1].
  intros H. split; [|exists (Re.rest x'); exact H1].
  destruct (Re.rest x') as [|c r].
  - destruct (Re.at_end _); inversion H; subst; simpl; rewrite H2; reflexivity.
  - destruct (xorb true _).
    + inversion H; subst; simpl; rewrite H2; reflexivity.
    + destruct (Re.at_end _); inversion H; subst; simpl; rewrite H2; reflexivity.
Qed.

Lemma special_match_at (name : text) p pv l m :
  Re.match_at false (Pat.special name) p pv l = Some m ->
  exists a r,
    Re.m_g1 m = Some (a, a + List.length name)
    /\ p <= a /\ skipn (a - p) l = name ++ r.
Proof.
  unfold Re.match_at, Pat.special. cbn [Re.seqs].
  set (tail := Re.Seq (Re.Group (Re.lit name)) (Re.Alt Re.nonword Re.Eol)).
  change (Re.run false (Re.Seq (Re.Alt Re.Bol Re.nonword) tail)
                 (fun y => Some y) (Re.mkst p pv l None))
    with (match (if p =? 0
                 then Re.run false tail (fun y => Some y) (Re.mkst p pv l None)
                 else None) with
          | Some y => Some y
          | None =>
              Re.eat (fun c => xorb true (Re.items_have false [Re.Word] c))
                     (Re.run false tail (fun y => Some y)) (Re.mkst p pv l None)
          end).
  destruct (if p =? 0 then _ else None) as [y|] eqn:E.
  - intros H; inversion H; subst m; clear H. cbn [Re.m_g1].
    destruct (p =? 0); [|discriminate].
    apply special_tail in E as (G & r & R). cbn [Re.pos Re.rest] in *.
    exists p, r. rewrite Nat.sub_diag. simpl. auto.
  - clear E. unfold Re.eat. cbn [Re.rest Re.pos Re.g1].
    destruct l as [|c l]; [discriminate|].
    destruct (xorb true _); [|discriminate].
    destruct (Re.run false tail _ _) as [y|] eqn:E; [|discriminate].
    intros H; inversion H; subst m; clear H. cbn [Re.m_g1].
    apply special_tail in E as (G & r & R). cbn [Re.pos Re.rest] in *.
    exists (S p), r. replace (S p - p) with 1 by lia. simpl.
    repeat split; [exact G | lia | exact R].
Qed.

Lemma special_search_from (name : text) l :
  forall p pv m,
    Re.search_from false (Pat.special name) p pv l = Some m ->
    exists a r,
      Re.m_g1 m = Some (a, a + List.length name)
      /\ p <= a /\ skipn (a - p) l = name ++ r.
Proof.
  induction l as [|c l IH]; intros p pv m H; cbn [Re.search_from] in H.
  - destruct (Re.match_at false (Pat.special name) p pv []) eqn:E;
      [|discriminate].
    inversion H; subst. eapply special_match_at; eauto.
  - destruct (Re.match_at false (Pat.special name) p pv (c :: l)) eqn:E.
    + inversion H; subst. eapply special_match_at; eauto.
    + apply IH in H as (a & r & G & L & R).
      exists a, r. repeat split; [exact G | lia |].
      replace (a - p) with (S (a - S p)) by lia. exact R.
Qed.

(** The first match of the special pattern puts group 1 on an occurrence
    of the name. *)
Lemma special_search (name t : text) (m : Re.Match) :
  Re.search false (Pat.special name) t = Some m ->
  exists a r,
    Re.m_g1 m = Some (a, a + List.length name) /\ skipn a t = name ++ r.
Proof.
  intros H. apply special_search_from in H as (a & r & G & _ & R).
  rewrite Nat.sub_0_r in R. eauto.
Qed.










(** ** The catalog: keys and the merge of the static table *)

Lemma keys_set {V : Type} (d : Dict.t V) (k : text) (v : V) :
  Dict.keys (Dict.set d k v) = add_key (Dict.keys d) k.
Proof.
  induction d as [|[k0 v0] d IH]; simpl; [reflexivity|].
  destruct (Str.eqb k0 k); simpl; [reflexivity | rewrite IH; reflexivity].
Qed.

Lemma mem_keys {V : Type} (d : Dict.t V) (k : text) :
  Dict.mem d k = in_list k (Dict.keys d).
Proof.
  unfold Dict.mem, in_list. induction d as [|[k0 v0] d IH]; simpl; [reflexivity|].
  rewrite (str_eqb_sym k k0). destruct (Str.eqb k0 k); [reflexivity | exact IH].
Qed.

Lemma add_row_same_keys (cat cat' : Catalog) (row : RefRow) :
  same_keys cat -> add_row cat row = Ok cat' -> same_keys cat'.
Proof.
  intros [H1 H2]. unfold add_row.
  destruct (row_fields row) as [[[[sn fn] ty] lv]|]; [|discriminate].
  cbn [bind]. intros H; inversion H; subst cat'; clear H.
  unfold same_keys; simpl. rewrite !keys_set, H1, H2. auto.
Qed.

Lemma add_rows_same_keys (rows : list RefRow) :
  forall cat cat',
    same_keys cat -> add_rows cat rows = Ok cat' -> same_keys cat'.
Proof.
  induction rows as [|row rows IH]; intros cat cat' W; simpl.
  - intros H; inversion H; subst; exact W.
  - destruct (add_row cat row) as [cat1|] eqn:E; [|discriminate].
    cbn [bind]. apply IH. eapply add_row_same_keys; eauto.
Qed.

Lemma fold_set_keys {V : Type} (f : text -> V) (vs : list text) :
  forall d : Dict.t V,
    Dict.keys (fold_left (fun c v => Dict.set c v (f v)) vs d)
    = fold_left add_key vs (Dict.keys d).
Proof.
  induction vs as [|v vs IH]; intros d; simpl; [reflexivity|].
  rewrite IH, keys_set. reflexivity.
Qed.

Lemma index_reference_same_keys (pm : PublicationMapping) (cat : Catalog) :
  index_reference pm = Ok cat -> same_keys cat.
Proof.
  destruct pm as [rows|d]; simpl.
  - apply add_rows_same_keys. split; reflexivity.
  - intros H; inversion H; subst cat; clear H. unfold same_keys; simpl.
    rewrite (fold_set_keys (fun v => v)),
            (fold_set_keys (fun _ => str "Unknown")),
            (fold_set_keys (fun _ => str "")).
    auto.
Qed.

Lemma same_keys_mem (cat : Catalog) (k : text) :
  same_keys cat ->
  Dict.mem (journal_types cat) k = Dict.mem (journal_categories cat) k
  /\ Dict.mem (journal_levels cat) k = Dict.mem (journal_categories cat) k.
Proof.
  intros [H1 H2]. rewrite !mem_keys, H1, H2. auto.
Qed.

Lemma add_conference_absent (cat : Catalog) (abbr full : text) :
  same_keys cat ->
  Dict.mem (journal_categories cat) full = false ->
  add_conference cat (abbr, full)
  = mkCatalog
      (if Dict.mem (journal_fullnames cat) abbr then journal_fullnames cat
       else journal_fullnames cat ++ [(abbr, full)])
      (journal_categories cat ++ [(full, full)])
      (journal_types cat ++ [(full, static_type full)])
      (journal_levels cat ++ [(full, static_level full)]).
Proof.
  intros W H. destruct (same_keys_mem cat full W) as [M1 M2].
  rewrite H in M1, M2. unfold add_conference. rewrite H. cbn [negb].
  rewrite (dict_set_absent (journal_categories cat) full),
          (dict_set_absent (journal_types cat) full),
          (dict_set_absent (journal_levels cat) full)
    by (apply dict_mem_false; assumption).
  destruct (Dict.mem (journal_fullnames cat) abbr) eqn:E; cbn [negb].
  - reflexivity.
  - rewrite dict_set_absent by (apply dict_mem_false; exact E). reflexivity.
Qed.

Lemma add_conference_same_keys (cat : Catalog) (e : text * text) :
  same_keys cat -> same_keys (add_conference cat e).
Proof.
  intros W. destruct e as [abbr full].
  destruct (Dict.mem (journal_categories cat) full) eqn:E.
  - unfold add_conference. rewrite E. exact W.
  - rewrite add_conference_absent by assumption.
    destruct W as [W1 W2]. unfold same_keys, Dict.keys; simpl.
    rewrite !map_app. unfold Dict.keys in W1, W2. rewrite W1, W2. auto.
Qed.

Lemma mem_app_single {V : Type} (d : Dict.t V) (k : text) (v : V) (k' : text) :
  Dict.mem (d ++ [(k, v)]) k' = Dict.mem d k' || Str.eqb k k'.
Proof.
  unfold Dict.mem. rewrite dict_get_app. simpl.
  destruct (Dict.get d k'); [reflexivity|].
  destruct (Str.eqb k k'); reflexivity.
Qed.

Lemma catalog_eta (cat : Catalog) :
  mkCatalog (journal_fullnames cat) (journal_categories cat)
            (journal_types cat) (journal_levels cat) = cat.
Proof. destruct cat; reflexivity. Qed.

Lemma merged_step (cat : Catalog) (abbr full : text) (l : list (text * text)) :
  same_keys cat ->
  ~ In abbr (map fst l) -> ~ In full (map snd l) ->
  merged (add_conference cat (abbr, full)) l = merged cat ((abbr, full) :: l).
Proof.
  intros W Na Nf.
  destruct (Dict.mem (journal_categories cat) full) eqn:E.
  - unfold add_conference. rewrite E. cbn [negb].
    unfold merged, new_venues, new_abbrs. cbn [filter fst snd].
    rewrite E. reflexivity.
  - rewrite add_conference_absent by assumption.
    assert (Fv : forall c1,
               filter (fun e => negb (Dict.mem (journal_categories cat ++ [(full, c1)]) (snd e))) l
               = filter (fun e => negb (Dict.mem (journal_categories cat) (snd e))) l).
    { intros c1. apply filter_ext_in. intros [a f] Hin. cbn [snd].
      rewrite mem_app_single.
      assert (Str.eqb full f = false) as ->.
      { apply str_eqb_neq. intros ->. apply Nf.
        apply (in_map snd) in Hin. exact Hin. }
      rewrite orb_false_r. reflexivity. }
    assert (Fa : forall fn' : Dict.t text,
               (forall k, k <> abbr ->
                          Dict.mem fn' k = Dict.mem (journal_fullnames cat) k) ->
               filter (fun e => negb (Dict.mem (journal_categories cat ++ [(full, full)]) (snd e))
                                && negb (Dict.mem fn' (fst e))) l
               = filter (fun e => negb (Dict.mem (journal_categories cat) (snd e))
                                  && negb (Dict.mem (journal_fullnames cat) (fst e))) l).
    { intros fn' Hfn. apply filter_ext_in. intros [a f] Hin. cbn [fst snd].
      rewrite mem_app_single.
      assert (Str.eqb full f = false) as ->.
      { apply str_eqb_neq. intros ->. apply Nf.
        apply (in_map snd) in Hin. exact Hin. }
      rewrite orb_false_r, Hfn; [reflexivity|].
      intros ->. apply Na. apply (in_map fst) in Hin. exact Hin. }
    unfold merged, new_venues, new_abbrs.
    cbn [journal_fullnames journal_categories journal_types journal_levels
         filter fst snd].
    rewrite E. cbn [negb andb map]. rewrite Fv.
    rewrite <- !app_assoc. cbn [app].
    destruct (Dict.mem (journal_fullnames cat) abbr) eqn:Ea; cbn [negb].
    + rewrite Fa by reflexivity. reflexivity.
    + rewrite Fa.
      * rewrite <- app_assoc. reflexivity.
      * intros k Hk. rewrite mem_app_single.
        assert (Str.eqb abbr k = false) as -> by (apply str_eqb_neq; congruence).
        apply orb_false_r.
Qed.

Lemma merge_fold (l : list (text * text)) :
  NoDup (map fst l) -> NoDup (map snd l) ->
  forall cat, same_keys cat -> fold_left add_conference l cat = merged cat l.
Proof.
  induction l as [|[abbr full] l IH]; intros Na Nf cat W.
  - unfold merged, new_venues, new_abbrs. simpl. rewrite !app_nil_r.
    symmetry; apply catalog_eta.
  - cbn [map fst snd] in Na, Nf. inversion Na; subst. inversion Nf; subst.
    cbn [fold_left]. rewrite IH by (auto using add_conference_same_keys).
    apply merged_step; assumption.
Qed.

Lemma conference_abbrs_distinct : NoDup (map fst CONFERENCE_MAPPINGS).
Proof.
  repeat (constructor; [cbn; intuition discriminate|]). constructor.
Qed.

Lemma conference_names_distinct : NoDup (map snd CONFERENCE_MAPPINGS).
Proof.
  repeat (constructor; [cbn; intuition discriminate|]). constructor.
Qed.

(** The merge appends, in the order of the static table, the venues the
    catalog lacks; nothing already there is touched. *)
Lemma merge_conferences_merged (cat : Catalog) :
  same_keys cat -> merge_conferences cat = merged cat CONFERENCE_MAPPINGS.
Proof.
  intros W. unfold merge_conferences, Dict.items.
  apply merge_fold;
    auto using conference_abbrs_distinct, conference_names_distinct.
Qed.

Lemma static_type_conference (abbr full : text) :
  In (abbr, full) CONFERENCE_MAPPINGS -> static_type full = str "Conference".
Proof.
  intros H. repeat (destruct H as [H|H]; [inversion H; subst; reflexivity|]).
  destruct H.
Qed.

Lemma static_level_ccf (abbr full : text) :
  In (abbr, full) CONFERENCE_MAPPINGS -> static_level full = ccf_level full.
Proof.
  intros H. repeat (destruct H as [H|H]; [inversion H; subst; reflexivity|]).
  destruct H.
Qed.

Lemma get_keyed_filter {V : Type} (P : text * text -> bool) (g : text -> V)
      (l : list (text * text)) (abbr full : text) :
  In (abbr, full) l -> P (abbr, full) = true ->
  Dict.get (map (fun e => (snd e, g (snd e))) (filter P l)) full
  = Some (g full).
Proof.
  intros Hin HP. induction l as [|[a f] l IH]; [destruct Hin|].
  cbn [filter]. destruct (P (a, f)) eqn:E.
  - cbn [map Dict.get fst snd]. destruct (Str.eqb f full) eqn:Ef.
    + apply str_eqb_eq in Ef; subst; reflexivity.
    + destruct Hin as [H|H]; [|auto].
      inversion H; subst. rewrite str_eqb_refl in Ef; discriminate.
  - destruct Hin as [H|H]; [|auto]. inversion H; subst. congruence.
Qed.

Lemma get_absent_key {V : Type} (d : Dict.t V) (k : text) :
  ~ In k (Dict.keys d) -> Dict.get d k = None.
Proof.
  intros H. destruct (Dict.get d k) eqn:E; [|reflexivity].
  exfalso; apply H. apply dict_get_in_keys. congruence.
Qed.

Lemma get_filter_pairs (P : text * text -> bool) (l : list (text * text))
      (abbr full : text) :
  NoDup (map fst l) -> In (abbr, full) l ->
  Dict.get (filter P l) abbr = if P (abbr, full) then Some full else None.
Proof.
  intros N Hin. induction l as [|[a f] l IH]; [destruct Hin|].
  cbn [map fst] in N. inversion N as [|? ? Hn N']; subst.
  assert (Hl : forall Q, ~ In a (Dict.keys (filter Q l))).
  { intros Q H. apply Hn. unfold Dict.keys in H. apply in_map_iff in H.
    destruct H as ([a' f'] & <- & H). apply filter_In in H as [H _].
    apply (in_map fst) in H. exact H. }
  destruct Hin as [H|H].
  - inversion H; subst. cbn [filter]. destruct (P (abbr, full)).
    + cbn [Dict.get]. rewrite str_eqb_refl; reflexivity.
    + apply get_absent_key. apply Hl.
  - cbn [filter]. destruct (P (a, f)); [|auto].
    cbn [Dict.get]. destruct (Str.eqb a abbr) eqn:E; [|auto].
    apply str_eqb_eq in E; subst a. exfalso; apply Hn.
    apply (in_map fst) in H. exact H.
Qed.

(** A pair of the static table whose full name the catalog lacks. *)
Lemma merge_new_venue (cat : Catalog) (abbr full : text) :
  same_keys cat ->
  In (abbr, full) CONFERENCE_MAPPINGS ->
  Dict.mem (journal_categories cat) full = false ->
  let cat' := merge_conferences cat in
  Dict.get (journal_categories cat') full = Some full
  /\ Dict.get (journal_types cat') full = Some (str "Conference")
  /\ Dict.get (journal_levels cat') full = Some (ccf_level full)
  /\ Dict.get (journal_fullnames cat') abbr
     = match Dict.get (journal_fullnames cat) abbr with
       | Some v => Some v
       | None => Some full
       end.
Proof.
  intros W Hin E cat'. subst cat'.
  rewrite merge_conferences_merged by exact W. unfold merged.
  cbn [journal_fullnames journal_categories journal_types journal_levels].
  destruct (same_keys_mem cat full W) as [M1 M2]. rewrite E in M1, M2.
  assert (P : (fun e : text * text =>
                 negb (Dict.mem (journal_categories cat) (snd e)))
                (abbr, full) = true).
  { cbn [snd]. rewrite E. reflexivity. }
  apply dict_mem_false in E, M1, M2.
  rewrite !dict_get_app, E, M1, M2. unfold new_venues, new_abbrs.
  rewrite (get_keyed_filter _ (fun f => f) _ abbr full Hin P).
  rewrite (get_keyed_filter _ static_type _ abbr full Hin P).
  rewrite (get_keyed_filter _ static_level _ abbr full Hin P).
  rewrite (static_type_conference abbr full Hin).
  rewrite (static_level_ccf abbr full Hin).
  repeat split.
  rewrite (get_filter_pairs _ _ abbr full conference_abbrs_distinct Hin).
  cbn [fst snd]. cbn [snd] in P. rewrite P. cbn [andb].
  unfold Dict.mem. destruct (Dict.get (journal_fullnames cat) abbr);
    reflexivity.
Qed.

(** C7: the merge of the static table into the indexed reference data.
    Every entry the reference data put in the four tables is still there
    with its value.  A pair of the static table whose full name is already
    a key is skipped, abbreviation included; otherwise the full name gets
    itself as category, type "Conference" and its CCF level, and the
    abbreviation is mapped to it unless the short-name table already has
    that abbreviation.  Nothing else is added.  The CCF levels are A for
    five venues, B for two, C for one and none for the rest. *)
Theorem static_merge_keeps_reference (pm : PublicationMapping) (cat : Catalog) :
  index_reference pm = Ok cat ->
  let cat' := merge_conferences cat in
  build_catalog pm = Ok cat'
  /\ (forall k v,
         (Dict.get (journal_fullnames cat) k = Some v ->
          Dict.get (journal_fullnames cat') k = Some v)
         /\ (Dict.get (journal_categories cat) k = Some v ->
             Dict.get (journal_categories cat') k = Some v)
         /\ (Dict.get (journal_types cat) k = Some v ->
             Dict.get (journal_types cat') k = Some v)
         /\ (Dict.get (journal_levels cat) k = Some v ->
             Dict.get (journal_levels cat') k = Some v))
  /\ (forall abbr full,
         In (abbr, full) CONFERENCE_MAPPINGS ->
         if Dict.mem (journal_categories cat) full
         then Dict.get (journal_fullnames cat') abbr
              = Dict.get (journal_fullnames cat) abbr
         else Dict.get (journal_categories cat') full = Some full
              /\ Dict.get (journal_types cat') full = Some (str "Conference")
              /\ Dict.get (journal_levels cat') full = Some (ccf_level full)
              /\ Dict.get (journal_fullnames cat') abbr
                 = match Dict.get (journal_fullnames cat) abbr with
                   | Some v => Some v
                   | None => Some full
                   end)
  /\ (forall k v,
         Dict.get (journal_fullnames cat') k = Some v ->
         Dict.get (journal_fullnames cat) k = Some v
         \/ (In (k, v) CONFERENCE_MAPPINGS
             /\ Dict.mem (journal_categories cat) v = false))
  /\ (forall k,
         Dict.mem (journal_categories cat') k = true ->
         Dict.mem (journal_categories cat) k = true
         \/ exists abbr, In (abbr, k) CONFERENCE_MAPPINGS)
  /\ map (fun e => (fst e, ccf_level (snd e))) CONFERENCE_MAPPINGS
     = [ (str "IJCNN", str "C"); (str "NAACL", str "B"); (str "ACL", str "A");
         (str "ICCV", str "A"); (str "CVPR", str "A"); (str "EMNLP", str "B");
         (str "ICML", str "A"); (str "NeurIPS", str "A");
         (str "AICCSA", str "") ].
Proof.
  intros Hidx cat'.
  assert (W : same_keys cat) by (eapply index_reference_same_keys; eauto).
  assert (M : cat' = merged cat CONFERENCE_MAPPINGS)
    by (apply merge_conferences_merged; exact W).
  split; [unfold build_catalog; rewrite Hidx; reflexivity|].
  rewrite M. unfold merged.
  cbn [journal_fullnames journal_categories journal_types journal_levels].
  split; [|split; [|split; [|split; [|reflexivity]]]].
  - intros k v. repeat split; intros H; rewrite dict_get_app, H; reflexivity.
  - intros abbr full Hin.
    destruct (Dict.mem (journal_categories cat) full) eqn:E.
    + rewrite dict_get_app. unfold new_abbrs.
      rewrite (get_filter_pairs _ _ abbr full conference_abbrs_distinct Hin).
      cbn [fst snd]. rewrite E. cbn [negb andb].
      destruct (Dict.get (journal_fullnames cat) abbr); reflexivity.
    + pose proof (merge_new_venue cat abbr full W Hin E) as N.
      cbv zeta in N. rewrite merge_conferences_merged in N by exact W.
      exact N.
  - intros k v. rewrite dict_get_app.
    destruct (Dict.get (journal_fullnames cat) k); [auto|].
    intros H. right. apply dict_get_in in H. unfold new_abbrs in H.
    apply filter_In in H as [H1 H2]. cbn [fst snd] in H2.
    apply andb_true_iff in H2 as [H2 _]. apply negb_true_iff in H2. auto.
  - intros k. unfold Dict.mem at 1. rewrite dict_get_app.
    unfold Dict.mem. destruct (Dict.get (journal_categories cat) k); [auto|].
    destruct (Dict.get _ k) as [v|] eqn:G; [|discriminate].
    intros _. right. apply dict_get_in in G. apply in_map_iff in G.
    destruct G as ([a f] & G1 & G2). cbn [snd] in G1. inversion G1; subst.
    unfold new_venues in G2. apply filter_In in G2 as [G2 _]. eauto.
Qed.

Lemma static_merge_keeps_reference_witness :
  let cat := {| journal_fullnames :=
                  [(str "NN", str "Neural Networks");
                   (str "CVPR", str "Computer Vision Papers");
                   (str "ML", str "International Conference on Machine Learning")];
                journal_categories :=
                  [(str "Neural Networks", str "Neural Networks");
                   (str "Computer Vision Papers", str "Computer Vision Papers");
                   (str "International Conference on Machine Learning",
                    str "International Conference on Machine Learning")];
                journal_types :=
                  [(str "Neural Networks", str "Journal");
                   (str "Computer Vision Papers", str "Unknown");
                   (str "International Conference on Machine Learning",
                    str "Meeting")];
                journal_levels :=
                  [(str "Neural Networks", str "B");
                   (str "Computer Vision Papers", str "");
                   (str "International Conference on Machine Learning",
                    str "C")] |} in
  let pm :=
    Frame
      [ [];
        [ (str "Journal Name", CStr (str "NN"));
          (str "Full Name of the Journal", CStr (str "Neural Networks"));
          (str "Type", CStr (str "Journal")); (str "Level", CStr (str "B")) ];
        [ (str "Journal Name", CStr (str "CVPR"));
          (str "Full Name of the Journal", CStr (str "Computer Vision Papers")) ];
        [ (str "Journal Name", CStr (str "ML"));
          (str "Full Name of the Journal",
           CStr (str "International Conference on Machine Learning"));
          (str "Type", CStr (str "Meeting")); (str "Level", CStr (str "C")) ] ] in
  index_reference pm = Ok cat
  /\ build_catalog pm = Ok (merge_conferences cat)
  /\ Dict.get (journal_fullnames (merge_conferences cat)) (str "CVPR")
     = Some (str "Computer Vision Papers")
  /\ Dict.get (journal_levels (merge_conferences cat))
              (str "International Conference on Machine Learning")
     = Some (str "C")
  /\ Dict.get (journal_fullnames (merge_conferences cat)) (str "ICML") = None.
Proof.
  intros cat pm.
  assert (H : index_reference pm = Ok cat) by reflexivity.
  destruct (static_merge_keeps_reference pm cat H) as (B & K & S & _).
  split; [exact H|]. split; [exact B|].
  split; [apply (K (str "CVPR") (str "Computer Vision Papers")); reflexivity|].
  split; [apply (K (str "International Conference on Machine Learning")
                   (str "C")); reflexivity|].
  apply (S (str "ICML") (str "International Conference on Machine Learning")).
  do 6 right; left; reflexivity.
Defined.





Lemma tier1_all_false (subject : text) (full_names : list text) :
  (forall n, In n full_names -> is_exact_match subject n = Ok false) ->
  tier1 subject full_names = Ok None.
Proof.
  induction full_names as [|n l IH]; intros H; simpl; [reflexivity|].
  rewrite (H n (or_introl eq_refl)). simpl. apply IH.
  intros m Hm; apply H; right; exact Hm.
Qed.

Lemma tier2_app (subject : text) (l1 l2 : list (text * text)) :
  tier2 subject (l1 ++ l2) =
  match tier2 subject l1 with
  | Some r => Some r
  | None => tier2 subject l2
  end.
Proof.
  induction l1 as [|[s f] l1 IH]; simpl; [reflexivity|].
  destruct (Str.isupper s && Str.contains subject s); [|exact IH].
  destruct (is_some (Re.search false (Pat.bracketed s) subject)); [reflexivity|].
  destruct (is_some (Re.search false (Pat.with_year s) subject));
    [reflexivity | exact IH].
Qed.

(** A short name that is not in the text is passed over, whether or not a
    filter keeps it. *)
Lemma tier2_filter_skip (subject : text) (P : text * text -> bool)
      (short full : text) (l : list (text * text)) :
  Str.contains subject short = false ->
  tier2 subject (filter P ((short, full) :: l)) = tier2 subject (filter P l).
Proof.
  intros H. cbn [filter]. destruct (P (short, full)); [|reflexivity].
  cbn [tier2]. rewrite H, andb_false_r. reflexivity.
Qed.

Lemma static_names_not_exact (n : text) :
  In n (map snd CONFERENCE_MAPPINGS) ->
  is_exact_match (str "Comments: To appear at CVPR2025") n = Ok false.
Proof.
  intros H. repeat (destruct H as [<-|H]; [vm_compute; reflexivity|]).
  destruct H.
Qed.

(** C5, on an eligible text: let the catalog be built with the static table
    from reference data in which no full name passes the exact-match test
    on "Comments: To appear at CVPR2025", no short name occurs in that text,
    and the CVPR full name is not a key.  Then a paper with that comments
    text resolves to "IEEE/CVF Conference on Computer Vision and Pattern
    Recognition", type "Conference", level "A", match type
    ShortNameWithYear. *)
Theorem cvpr_with_year (pm : PublicationMapping) (cat0 : Catalog)
        (row : PaperRow) :
  let subject := str "Comments: To appear at CVPR2025" in
  let venue :=
    str "IEEE/CVF Conference on Computer Vision and Pattern Recognition" in
  index_reference pm = Ok cat0 ->
  cell_text row 2 = subject ->
  (forall n, In n (Dict.keys (journal_categories cat0)) ->
             is_exact_match subject n = Ok false) ->
  (forall short full, In (short, full) (Dict.items (journal_fullnames cat0)) ->
                      Str.contains subject short = false) ->
  Dict.mem (journal_categories cat0) venue = false ->
  exists cat,
    build_catalog pm = Ok cat
    /\ resolve cat row
       = Ok (Some (mkRecord (cell_text row 0) subject (cell_text row 3) venue
                            (str "Conference") (str "A") ShortNameWithYear
                            None)).
Proof.
  intros subject venue Hidx Hrow H1 H2 H3.
  assert (W : same_keys cat0) by (eapply index_reference_same_keys; eauto).
  exists (merge_conferences cat0).
  split; [unfold build_catalog; rewrite Hidx; reflexivity|].
  assert (Hin : In (str "CVPR", venue) CONFERENCE_MAPPINGS)
    by (do 4 right; left; reflexivity).
  assert (Hs : Dict.mem (journal_fullnames cat0) (str "CVPR") = false).
  { apply dict_mem_false.
    destruct (Dict.get (journal_fullnames cat0) (str "CVPR")) as [v|] eqn:G;
      [|reflexivity].
    apply dict_get_in in G. apply H2 in G. vm_compute in G. discriminate. }
  rewrite resolve_unfold, Hrow.
  change (Str.contains subject (str "Comments")) with true. cbv iota.
  rewrite resolve_venue_cascade.
  rewrite merge_conferences_merged by exact W.
  unfold merged at 1 2.
  cbn [journal_fullnames journal_categories].
  assert (T1 : tier1 subject
                 (Dict.keys
                    (journal_categories cat0
                       ++ map (fun e => (snd e, snd e))
                              (new_venues cat0 CONFERENCE_MAPPINGS)))
               = Ok None).
  { apply tier1_all_false. intros n Hn. unfold Dict.keys in Hn.
    rewrite map_app in Hn. apply in_app_or in Hn as [Hn|Hn]; [auto|].
    rewrite map_map in Hn. cbn [fst snd] in Hn.
    apply static_names_not_exact. apply in_map_iff in Hn.
    destruct Hn as (e & <- & He). apply in_map.
    unfold new_venues in He. apply filter_In in He as [He _]. exact He. }
  rewrite T1.
  assert (T2 : tier2 subject
                 (Dict.items (journal_fullnames cat0
                                ++ new_abbrs cat0 CONFERENCE_MAPPINGS))
               = Some (venue, ShortNameWithYear)).
  { unfold Dict.items. rewrite tier2_app.
    rewrite (tier2_absent subject (journal_fullnames cat0) H2).
    unfold new_abbrs, CONFERENCE_MAPPINGS.
    rewrite !tier2_filter_skip by (vm_compute; reflexivity).
    cbn [filter fst snd]. fold venue. rewrite H3, Hs. cbn [negb andb].
    cbn [tier2].
    change (Str.isupper (str "CVPR") && Str.contains subject (str "CVPR"))
      with true. cbv iota.
    replace (is_some (Re.search false (Pat.bracketed (str "CVPR")) subject))
      with false by (vm_compute; reflexivity).
    replace (is_some (Re.search false (Pat.with_year (str "CVPR")) subject))
      with true by (vm_compute; reflexivity).
    reflexivity. }
  rewrite T2. cbn [bind]. f_equal. f_equal.
  unfold record_for. rewrite Hrow.
  rewrite <- merge_conferences_merged by exact W.
  destruct (merge_new_venue cat0 (str "CVPR") venue W Hin H3)
    as (_ & St & Sl & _).
  unfold Dict.get_default. rewrite St, Sl. reflexivity.
Qed.

Lemma cvpr_with_year_witness :
  let row := [CStr (str "A paper"); CNaN;
              CStr (str "Comments: To appear at CVPR2025");
              CStr (str "http://arxiv.org/abs/3")] in
  exists cat,
    build_catalog (Frame sample_reference) = Ok cat
    /\ resolve cat row
       = Ok (Some (mkRecord
                     (str "A paper") (str "Comments: To appear at CVPR2025")
                     (str "http://arxiv.org/abs/3")
                     (str "IEEE/CVF Conference on Computer Vision and Pattern Recognition")
                     (str "Conference") (str "A") ShortNameWithYear None)).
Proof.
  intros row.
  refine (cvpr_with_year (Frame sample_reference)
            (mkCatalog
               [(str "NN", str "Neural Networks")]
               [(str "Neural Networks", str "Neural Networks")]
               [(str "Neural Networks", str "Journal")]
               [(str "Neural Networks", str "B")])
            row _ _ _ _ _).
  - reflexivity.
  - reflexivity.
  - intros n [<-|[]]. vm_compute; reflexivity.
  - intros short full [H|[]]. inversion H; subst. vm_compute; reflexivity.
  - reflexivity.
Defined.

(** C5 as stated fails: the text "To appear at CVPR2025" does not contain
    "Comments", so the paper is not eligible and resolves to nothing. *)
Lemma cvpr_with_year_counterexample :
  let row := [CStr (str "A paper"); CNaN; CStr (str "To appear at CVPR2025");
              CStr (str "http://arxiv.org/abs/3")] in
  build_catalog (Frame []) = Ok static_catalog
  /\ resolve static_catalog row = Ok None
  /\ first_analysis [row] (Frame []) = Ok [].
Proof.
  intros row.
  split; [vm_compute; reflexivity|]. split; vm_compute; reflexivity.
Qed.

(** ** Words in a text *)

Lemma last_opt_snoc (a : text) (c : ascii) : last_opt (a ++ [c]) = Some c.
Proof. unfold last_opt. rewrite rev_app_distr. reflexivity. Qed.

Lemma skip_lit_sound (s : text) :
  forall x x' a,
    skip_lit true s x = Some x' ->
    Re.prev x = last_opt a ->
    exists w,
      Re.rest x = w ++ Re.rest x'
      /\ Str.lower w = Str.lower s
      /\ Re.prev x' = last_opt (a ++ w).
Proof.
  induction s as [|c s IH]; intros x x' a H Hp; simpl in H.
  - inversion H; subst. exists []. rewrite app_nil_r. auto.
  - destruct (Re.rest x) as [|y r] eqn:R; [discriminate|].
    change (Re.chr_eq true c y)
      with (Char.eqb (Char.lower c) (Char.lower y)) in H.
    destruct (Char.eqb (Char.lower c) (Char.lower y)) eqn:E; [|discriminate].
    apply char_eqb_eq in E.
    apply (IH _ _ (a ++ [y])) in H; [|simpl; symmetry; apply last_opt_snoc].
    destruct H as (w & H1 & H2 & H3). simpl in H1.
    exists (y :: w). rewrite <- app_assoc in H3. simpl in *.
    rewrite H1, H2, E. auto.
Qed.

Lemma skip_lit_complete (s : text) :
  forall w b x a,
    Re.rest x = w ++ b ->
    Str.lower w = Str.lower s ->
    Re.prev x = last_opt a ->
    exists x',
      skip_lit true s x = Some x'
      /\ Re.rest x' = b /\ Re.prev x' = last_opt (a ++ w).
Proof.
  induction s as [|c s IH]; intros w b x a Hr Hl Hp.
  - destruct w; [|discriminate]. exists x. rewrite app_nil_r. auto.
  - destruct w as [|y w]; [discriminate|]. simpl in Hl. inversion Hl.
    simpl. rewrite Hr. simpl.
    change (Re.chr_eq true c y)
      with (Char.eqb (Char.lower c) (Char.lower y)).
    assert (Char.eqb (Char.lower c) (Char.lower y) = true) as ->
        by (apply char_eqb_eq; congruence).
    destruct (IH w b (Re.mkst (S (Re.pos x)) (Some y) (w ++ b) (Re.g1 x))
                 (a ++ [y]))
      as (x' & Hx1 & Hx2 & Hx3); auto.
    + simpl. symmetry; apply last_opt_snoc.
    + exists x'. rewrite <- app_assoc in Hx3. auto.
Qed.

Lemma whole_word_run (name : text) (x : Re.st) :
  Re.run true (Pat.whole_word name) (fun y => Some y) x =
  if Re.at_boundary x then
    match skip_lit true name x with
    | Some x' => if Re.at_boundary x' then Some x' else None
    | None => None
    end
  else None.
Proof.
  unfold Pat.whole_word. cbn [Re.seqs Re.run]. rewrite run_lit. reflexivity.
Qed.

Lemma search_from_iff (ic : bool) (r : Re.re) (l : text) :
  forall a,
    is_some (Re.search_from ic r (List.length a) (last_opt a) l) = true
    <-> exists l1 l2,
        l = l1 ++ l2
        /\ is_some (Re.match_at ic r (List.length (a ++ l1))
                                (last_opt (a ++ l1)) l2) = true.
Proof.
  induction l as [|c l IH]; intros a; cbn [Re.search_from].
  - split.
    + intros H. exists [], []. rewrite (app_nil_r a). split; [reflexivity|].
      destruct (Re.match_at ic r (List.length a) (last_opt a) []);
        [reflexivity | discriminate].
    + intros (l1 & l2 & E & H). symmetry in E.
      apply app_eq_nil in E as [-> ->]. rewrite (app_nil_r a) in H.
      destruct (Re.match_at ic r (List.length a) (last_opt a) []);
        [reflexivity | discriminate].
  - destruct (Re.match_at ic r (List.length a) (last_opt a) (c :: l)) eqn:M.
    + split; [|reflexivity]. intros _. exists [], (c :: l).
      rewrite (app_nil_r a), M. auto.
    + assert (Ea : S (List.length a) = List.length (a ++ [c]))
        by (rewrite length_app; simpl; lia).
      rewrite Ea, <- (last_opt_snoc a c), IH. split.
      * intros (l1 & l2 & -> & H). exists (c :: l1), l2.
        rewrite <- app_assoc in H. auto.
      * intros (l1 & l2 & E & H). destruct l1 as [|c' l1].
        -- simpl in E. subst l2. rewrite (app_nil_r a), M in H. discriminate.
        -- inversion E; subst. exists l1, l2.
           rewrite <- app_assoc. auto.
Qed.

(** The word-boundary search, case-insensitive, finds exactly the keywords
    that stand in the text as a word. *)
Lemma whole_word_search (keyword title : text) :
  is_some (Re.search true (Pat.whole_word keyword) title) = true
  <-> standalone_in keyword title.
Proof.
  unfold Re.search.
  rewrite (search_from_iff true (Pat.whole_word keyword) title []).
  unfold standalone_in. split.
  - intros (a & l & -> & H). cbn [app] in H. unfold Re.match_at in H.
    rewrite whole_word_run in H. unfold Re.at_boundary at 1 in H.
    cbn [Re.prev Re.rest] in H.
    destruct (xorb _ _) eqn:B1; [|discriminate].
    destruct (skip_lit true keyword _) as [x'|] eqn:S; [|discriminate].
    destruct (Re.at_boundary x') eqn:B2; [|discriminate].
    apply (skip_lit_sound _ _ _ a) in S; [|reflexivity].
    destruct S as (w & S1 & S2 & S3). cbn [Re.rest] in S1.
    exists a, w, (Re.rest x'). unfold boundary.
    unfold Re.at_boundary in B2. rewrite S3 in B2. rewrite <- S1.
    auto.
  - intros (a & w & b & -> & Hl & B1 & B2). exists a, (w ++ b).
    split; [reflexivity|]. cbn [app]. unfold Re.match_at.
    rewrite whole_word_run. unfold Re.at_boundary at 1.
    cbn [Re.prev Re.rest]. unfold boundary in B1. rewrite B1.
    destruct (skip_lit_complete keyword w b
                (Re.mkst (List.length a) (last_opt a) (w ++ b) None) a)
      as (x' & S1 & S2 & S3); auto.
    rewrite S1. unfold Re.at_boundary. rewrite S2, S3.
    unfold boundary in B2. rewrite B2. reflexivity.
Qed.



(** ** Splitting and trimming *)

Lemma split_nonempty (sep : ascii) (s : text) : split sep s <> [].
Proof.
  destruct s as [|c s]; simpl; [discriminate|].
  destruct (Char.eqb c sep); [discriminate|].
  destruct (split sep s); discriminate.
Qed.

(** Joining the pieces with the separator gives the string back. *)
Lemma split_join (sep : ascii) (s : text) :
  Str.join [sep] (split sep s) = s.
Proof.
  induction s as [|c s IH]; [reflexivity|].
  cbn [split]. destruct (Char.eqb c sep) eqn:E.
  - apply char_eqb_eq in E; subst c.
    pose proof (split_nonempty sep s) as N.
    destruct (split sep s) as [|p ps]; [congruence|].
    change (Str.join [sep] ([] :: p :: ps))
      with ([] ++ [sep] ++ Str.join [sep] (p :: ps)).
    rewrite IH. reflexivity.
  - pose proof (split_nonempty sep s) as N.
    destruct (split sep s) as [|p ps]; [congruence|].
    destruct ps as [|q ps]; simpl in *; rewrite <- IH; reflexivity.
Qed.

Lemma split_no_sep (sep : ascii) (s : text) :
  Forall (fun piece => ~ In sep piece) (split sep s).
Proof.
  induction s as [|c s IH]; simpl; [repeat constructor; auto|].
  destruct (Char.eqb c sep) eqn:E; [constructor; auto|].
  destruct (split sep s) as [|p ps]; [repeat constructor|].
  - intros [H|[]]. subst. rewrite char_eqb_refl in E. discriminate.
  - inversion IH; subst. constructor; [|assumption].
    intros [H|H]; [|auto]. subst. rewrite char_eqb_refl in E. discriminate.
Qed.

Lemma join_parts (sep : text) (l : list text) (piece : text) :
  In piece l -> part_of piece (Str.join sep l).
Proof.
  induction l as [|x l IH]; [intros []|].
  destruct l as [|y l].
  - intros [<-|[]]. exists [], []. simpl. rewrite app_nil_r. reflexivity.
  - change (Str.join sep (x :: y :: l))
      with (x ++ sep ++ Str.join sep (y :: l)).
    intros [<-|H].
    + exists [], (sep ++ Str.join sep (y :: l)). reflexivity.
    + destruct (IH H) as (a & b & ->).
      exists (x ++ sep ++ a), b. rewrite <- !app_assoc. reflexivity.
Qed.

(** Every piece of a split is a contiguous part of the string. *)
Lemma split_parts (sep : ascii) (s piece : text) :
  In piece (split sep s) -> part_of piece s.
Proof.
  intros H. rewrite <- (split_join sep s) at 1. apply join_parts. exact H.
Qed.

Lemma lstrip_spec (s : text) :
  exists a,
    s = a ++ Str.lstrip s
    /\ Forall (fun c => Char.is_space c = true) a
    /\ (forall c, hd_error (Str.lstrip s) = Some c -> Char.is_space c = false).
Proof.
  induction s as [|x s (a & E & A & H)]; simpl.
  - exists []. repeat split; [constructor | discriminate].
  - destruct (Char.is_space x) eqn:X.
    + exists (x :: a). simpl. rewrite <- E. repeat split; auto.
    + exists []. repeat split; [constructor|].
      simpl. intros c Hc; inversion Hc; subst; exact X.
Qed.

(** [strip] removes white space from both ends and nothing else. *)
Lemma strip_spec (s : text) :
  exists a b,
    s = a ++ Str.strip s ++ b
    /\ Forall (fun c => Char.is_space c = true) a
    /\ Forall (fun c => Char.is_space c = true) b
    /\ (forall c, hd_error (Str.strip s) = Some c -> Char.is_space c = false)
    /\ (forall c, hd_error (rev (Str.strip s)) = Some c ->
                  Char.is_space c = false).
Proof.
  destruct (lstrip_spec s) as (a & Ea & Aa & Ha).
  destruct (lstrip_spec (rev (Str.lstrip s))) as (b & Eb & Ab & Hb).
  unfold Str.strip. set (u := Str.lstrip s) in *.
  set (v := Str.lstrip (rev u)) in *.
  assert (Eu : u = rev v ++ rev b).
  { rewrite <- (rev_involutive u), Eb, rev_app_distr. reflexivity. }
  exists a, (rev b). repeat split.
  - rewrite <- Eu. exact Ea.
  - exact Aa.
  - apply Forall_rev. exact Ab.
  - intros c Hc. apply Ha. rewrite Eu.
    destruct (rev v); [discriminate | exact Hc].
  - rewrite rev_involutive. exact Hb.
Qed.

Lemma part_of_trans (a b c : text) : part_of a b -> part_of b c -> part_of a c.
Proof.
  intros (x & y & ->) (x' & y' & ->).
  exists (x' ++ x), (y ++ y'). rewrite <- !app_assoc. reflexivity.
Qed.

Lemma parse_keywords_in (c : Cell) (kw : text) :
  In kw (parse_keywords c) <->
  kw <> [] /\ exists piece, In piece (split "," (cell_str c))
                            /\ kw = Str.strip piece.
Proof.
  unfold parse_keywords. rewrite filter_In, in_map_iff, negb_true_iff.
  rewrite str_eqb_neq. split.
  - intros [(p & <- & H) N]. split; [exact N | exists p; auto].
  - intros [N (p & H & ->)]. split; [exists p; auto | exact N].
Qed.

(** X1: the keywords read from a cell are clean (not empty, trimmed, free
    of commas) and each is a contiguous part of the cell's text. *)
Theorem parse_keywords_clean (c : Cell) (kw : text) :
  In kw (parse_keywords c) ->
  clean_keyword kw /\ part_of kw (cell_str c).
Proof.
  intros H. apply parse_keywords_in in H as [N (p & Hp & ->)].
  destruct (strip_spec p) as (a & b & E & _ & _ & Hh & Hl).
  pose proof (split_no_sep "," (cell_str c)) as F.
  rewrite Forall_forall in F. specialize (F p Hp).
  split.
  - repeat split; auto.
    intros Hin. apply F. rewrite E. apply in_or_app. right.
    apply in_or_app. left. exact Hin.
  - apply (part_of_trans _ p); [exists a, b; exact E|].
    apply (split_parts "," _ _ Hp).
Qed.

Lemma parse_keywords_clean_witness :
  In (str "deep learning")
     (parse_keywords (CStr (str " Deep, deep learning ,, vision")))
  /\ clean_keyword (str "deep learning")
  /\ part_of (str "deep learning") (str " Deep, deep learning ,, vision").
Proof.
  assert (H : In (str "deep learning")
                 (parse_keywords (CStr (str " Deep, deep learning ,, vision"))))
    by (vm_compute; right; left; reflexivity).
  split; [exact H|]. exact (parse_keywords_clean _ _ H).
Defined.

(** ** The keyword table *)

Lemma listed_set (keywords : Dict.t (list text)) (j : text) (l : list text)
      (j' kw : text) :
  listed (Dict.set keywords j l) j' kw
  <-> (j' = j /\ In kw l) \/ (j' <> j /\ listed keywords j' kw).
Proof.
  unfold listed.
  destruct (Str.eqb j j') eqn:E.
  - apply str_eqb_eq in E; subst j'. rewrite dict_get_set_same. split.
    + intros (l' & H & Hin). inversion H; subst. auto.
    + intros [[_ H]|[N _]]; [eauto | congruence].
  - apply str_eqb_neq in E. rewrite dict_get_set_other by exact E. split.
    + intros H. right. split; [congruence | exact H].
    + intros [[-> _]|[_ H]]; [congruence | exact H].
Qed.

(** What one keyword row does to the table, when it raises nothing. *)
Lemma add_keywords_spec (column : text) (keywords keywords' : Dict.t (list text))
      (row : RefRow) :
  add_keywords column keywords row = Ok keywords' ->
  forall j kw,
    listed keywords' j kw
    <-> listed keywords j kw \/ contributes column row j kw.
Proof.
  unfold add_keywords, Dict.getitem, contributes.
  destruct (Dict.get row (str "Full Name of the Journal")) as [c_name|];
    cbn [bind]; [|discriminate].
  assert (Same : forall j kw,
             (forall name c_kw,
                 Some c_name = Some (CStr name) ->
                 Str.strip name = j ->
                 Dict.get row column = Some c_kw ->
                 isna c_kw = false -> In kw (parse_keywords c_kw) -> False) ->
             listed keywords j kw
             <-> listed keywords j kw
                 \/ (exists name c_kw,
                        Some c_name = Some (CStr name)
                        /\ Str.strip name = j
                        /\ Dict.get row column = Some c_kw
                        /\ isna c_kw = false
                        /\ In kw (parse_keywords c_kw))).
  { intros j kw N. split; [auto|].
    intros [H|(name & c_kw & H1 & H2 & H3 & H4 & H5)]; [exact H|].
    destruct (N name c_kw H1 H2 H3 H4 H5). }
  destruct (isna c_name) eqn:Na.
  { intros H; inversion H; subst. intros j kw. apply Same.
    intros name c_kw E. inversion E; subst. discriminate. }
  destruct (Dict.get row column) as [c_kw|]; cbn [bind]; [|discriminate].
  destruct (isna c_kw) eqn:Nk.
  { intros H; inversion H; subst. intros j kw. apply Same.
    intros name c_kw' _ _ E. inversion E; subst. congruence. }
  destruct c_name as [name| |shown]; cbn [cell_strip bind]; try discriminate.
  destruct (parse_keywords c_kw) as [|k0 ks] eqn:P.
  { intros H; inversion H; subst. intros j kw. apply Same.
    intros name' c_kw' _ _ E _ Hin. inversion E; subst.
    rewrite P in Hin. destruct Hin. }
  assert (C : forall j kw l,
             (j = Str.strip name /\ In kw (l ++ k0 :: ks))
             \/ (j <> Str.strip name /\ listed keywords j kw)
             <-> ((j = Str.strip name /\ In kw l)
                  \/ (j <> Str.strip name /\ listed keywords j kw))
                 \/ (exists name0 c_kw0,
                        Some (CStr name) = Some (CStr name0)
                        /\ Str.strip name0 = j
                        /\ Some c_kw = Some c_kw0
                        /\ isna c_kw0 = false
                        /\ In kw (parse_keywords c_kw0))).
  { intros j kw l. rewrite in_app_iff. split.
    - intros [[-> [H|H]]|H]; auto.
      right. exists name, c_kw. rewrite P. auto.
    - intros [[[-> H]|H]|(n0 & c0 & E1 & E2 & E3 & _ & E5)]; auto.
      inversion E1; inversion E3; subst. rewrite P in E5. auto. }
  destruct (Dict.mem keywords (Str.strip name)) eqn:M.
  - apply dict_mem_get in M as [old Ho]. rewrite Ho. cbn [bind].
    intros H; inversion H; subst. intros j kw.
    rewrite listed_set, (C j kw old).
    assert (L : listed keywords j kw
                <-> (j = Str.strip name /\ In kw old)
                    \/ (j <> Str.strip name /\ listed keywords j kw)).
    { unfold listed. split.
      - intros (l & Hl & Hin).
        destruct (Str.eqb j (Str.strip name)) eqn:E.
        + apply str_eqb_eq in E; subst j. rewrite Ho in Hl.
          inversion Hl; subst. auto.
        + apply str_eqb_neq in E. right; split; eauto.
      - intros [[-> Hin]|[_ Hl]]; eauto. }
    rewrite <- L. reflexivity.
  - intros H; inversion H; subst. intros j kw.
    rewrite listed_set. change (k0 :: ks) with ([] ++ k0 :: ks).
    rewrite (C j kw []).
    assert (L : listed keywords j kw
                <-> (j = Str.strip name /\ In kw [])
                    \/ (j <> Str.strip name /\ listed keywords j kw)).
    { unfold listed. apply dict_mem_false in M. split.
      - intros (l & Hl & Hin). right. split; [|eauto]. intros ->. congruence.
      - intros [[_ []]|[_ Hl]]; exact Hl. }
    rewrite <- L. reflexivity.
Qed.

Lemma add_keyword_rows_spec (column : text) (rows : list RefRow) :
  forall keywords keywords',
    add_keyword_rows column keywords rows = Ok keywords' ->
    forall j kw,
      listed keywords' j kw
      <-> listed keywords j kw
          \/ exists row, In row rows /\ contributes column row j kw.
Proof.
  induction rows as [|row rows IH]; intros keywords keywords' H j kw;
    cbn [add_keyword_rows] in H.
  - inversion H; subst. split; [auto|]. intros [L|(r & [] & _)]; exact L.
  - destruct (add_keywords column keywords row) as [k1|] eqn:E;
      cbn [bind] in H; [|discriminate].
    rewrite (IH _ _ H), (add_keywords_spec _ _ _ _ E). split.
    + intros [[L|C]|(r & Hr & C)]; auto.
      * right. exists row. split; [left; reflexivity | exact C].
      * right. exists r. split; [right; exact Hr | exact C].
    + intros [L|(r & [<-|Hr] & C)]; auto. right. eauto.
Qed.

Lemma collect_keywords_column (keywords_df : KeywordFrame) :
  collect_keywords keywords_df =
  match keyword_column keywords_df with
  | Some column => add_keyword_rows column [] (kw_rows keywords_df)
  | None => Ok default_keywords
  end.
Proof.
  unfold collect_keywords, keyword_column. cbv zeta.
  destruct (in_list (str "Full Name of the Journal") (kw_columns keywords_df)).
  - destruct (in_list (str "keyword-English") (kw_columns keywords_df));
      [reflexivity|].
    destruct (in_list (str "keyword-Chinese") (kw_columns keywords_df));
      reflexivity.
  - reflexivity.
Qed.

Lemma get_map_values {V W : Type} (f : V -> W) (d : Dict.t V) (k : text) :
  Dict.get (map (fun e => (fst e, f (snd e))) d) k = option_map f (Dict.get d k).
Proof.
  induction d as [|[k0 v0] d IH]; simpl; [reflexivity|].
  destruct (Str.eqb k0 k); [reflexivity | exact IH].
Qed.

Lemma in_add_key (ks : list text) (k x : text) :
  In x (add_key ks k) -> x = k \/ In x ks.
Proof.
  induction ks as [|k0 ks IH]; simpl.
  - intros [H|[]]; auto.
  - destruct (Str.eqb k0 k); [auto|].
    intros [H|H]; [auto|]. destruct (IH H); auto.
Qed.

Lemma add_key_nodup (ks : list text) (k : text) :
  NoDup ks -> NoDup (add_key ks k).
Proof.
  induction ks as [|k0 ks IH]; simpl; intros N.
  - constructor; [intros [] | constructor].
  - destruct (Str.eqb k0 k) eqn:E; [exact N|].
    inversion N as [|? ? Hn N']; subst. constructor; [|auto].
    intros H. apply in_add_key in H as [H|H]; [|auto].
    subst. rewrite str_eqb_refl in E. discriminate.
Qed.

Lemma set_forall {V : Type} (P : text * V -> Prop) (d : Dict.t V) (k : text)
      (v : V) :
  Forall P d -> (forall k', P (k', v)) -> Forall P (Dict.set d k v).
Proof.
  intros F Hv. induction F as [|[k0 v0] d H F IH]; simpl.
  - constructor; [apply Hv | constructor].
  - destruct (Str.eqb k0 k); constructor; auto.
Qed.

Lemma add_keywords_ok (column : text) (keywords keywords' : Dict.t (list text))
      (row : RefRow) :
  table_ok keywords ->
  add_keywords column keywords row = Ok keywords' -> table_ok keywords'.
Proof.
  intros [N F]. unfold add_keywords, Dict.getitem.
  destruct (Dict.get row _) as [c_name|]; cbn [bind]; [|discriminate].
  destruct (isna c_name); [intros H; inversion H; subst; split; assumption|].
  destruct (Dict.get row column) as [c_kw|]; cbn [bind]; [|discriminate].
  destruct (isna c_kw); [intros H; inversion H; subst; split; assumption|].
  destruct (cell_strip c_name) as [j|]; cbn [bind]; [|discriminate].
  destruct (parse_keywords c_kw) as [|k0 ks] eqn:P;
    [intros H; inversion H; subst; split; assumption|].
  assert (G : Forall clean_keyword (k0 :: ks)).
  { apply Forall_forall. intros kw Hin. rewrite <- P in Hin.
    apply (parse_keywords_clean c_kw kw Hin). }
  destruct (Dict.mem keywords j) eqn:M.
  - apply dict_mem_get in M as [old Ho]. rewrite Ho. cbn [bind].
    intros H; inversion H; subst. split.
    + rewrite keys_set. apply add_key_nodup. exact N.
    + apply set_forall; [exact F|]. intros k'. cbn [snd].
      apply dict_get_in in Ho. rewrite Forall_forall in F.
      destruct (F _ Ho) as [_ Fo]. cbn [snd] in Fo. split.
      * destruct old; discriminate.
      * apply Forall_app. auto.
  - intros H; inversion H; subst. split.
    + rewrite keys_set. apply add_key_nodup. exact N.
    + apply set_forall; [exact F|]. intros k'. cbn [snd].
      split; [discriminate | exact G].
Qed.

Lemma add_keyword_rows_ok (column : text) (rows : list RefRow) :
  forall keywords keywords',
    table_ok keywords ->
    add_keyword_rows column keywords rows = Ok keywords' -> table_ok keywords'.
Proof.
  induction rows as [|row rows IH]; intros keywords keywords' T H;
    cbn [add_keyword_rows] in H.
  - inversion H; subst; exact T.
  - destruct (add_keywords column keywords row) as [k1|] eqn:E;
      cbn [bind] in H; [|discriminate].
    eapply IH; [|exact H]. eapply add_keywords_ok; eauto.
Qed.

Lemma default_keywords_ok : table_ok default_keywords.
Proof.
  split.
  - change (Dict.keys default_keywords)
      with (map snd CONFERENCE_MAPPINGS). apply conference_names_distinct.
  - repeat (constructor;
            [split; [discriminate|];
             constructor; [|constructor];
             repeat split;
             [discriminate
             |intros c H; inversion H; reflexivity
             |intros c H; inversion H; reflexivity
             |cbn; intuition discriminate]|]).
    constructor.
Qed.

Lemma collect_keywords_ok (keywords_df : KeywordFrame)
      (keywords : Dict.t (list text)) :
  collect_keywords keywords_df = Ok keywords -> table_ok keywords.
Proof.
  rewrite collect_keywords_column.
  destruct (keyword_column keywords_df) as [column|].
  - apply add_keyword_rows_ok. split; constructor.
  - intros H; inversion H; subst. apply default_keywords_ok.
Qed.

Lemma add_keywords_success (column : text) (keywords : Dict.t (list text))
      (row : RefRow) :
  (exists keywords', add_keywords column keywords row = Ok keywords')
  <-> keyword_row_ok column row = true.
Proof.
  assert (Go : forall name c_kw,
             exists keywords',
               match parse_keywords c_kw with
               | [] => Ok keywords
               | _ :: _ =>
                   if Dict.mem keywords (Str.strip name)
                   then old <- Dict.getitem keywords (Str.strip name) ;;
                        Ok (Dict.set keywords (Str.strip name)
                                     (old ++ parse_keywords c_kw))
                   else Ok (Dict.set keywords (Str.strip name)
                                     (parse_keywords c_kw))
               end = Ok keywords').
  { intros name c_kw. destruct (parse_keywords c_kw); [eauto|].
    destruct (Dict.mem keywords (Str.strip name)) eqn:M; [|eauto].
    apply dict_mem_get in M as [old Ho]. unfold Dict.getitem. rewrite Ho.
    cbn [bind]. eauto. }
  unfold add_keywords, keyword_row_ok, Dict.getitem.
  destruct (Dict.get row (str "Full Name of the Journal"))
    as [[name| |shown]|];
    destruct (Dict.get row column) as [[kws| |shown']|];
    cbn [bind isna cell_strip];
    try (split; [intros [? H]; discriminate H | intros H; discriminate H]);
    try (split; [intros _; reflexivity | intros _; eexists; reflexivity]);
    (split; [intros _; reflexivity | intros _; apply Go]).
Qed.

Lemma add_keyword_rows_success (column : text) (rows : list RefRow) :
  forall keywords,
    (exists keywords', add_keyword_rows column keywords rows = Ok keywords')
    <-> forallb (keyword_row_ok column) rows = true.
Proof.
  induction rows as [|row rows IH]; intros keywords; cbn [add_keyword_rows forallb].
  - split; eauto.
  - rewrite andb_true_iff, <- (add_keywords_success column keywords row).
    split.
    + intros [k' H].
      destruct (add_keywords column keywords row) as [k1|] eqn:E;
        cbn [bind] in H; [|discriminate].
      split; [eauto|]. apply (IH k1). eauto.
    + intros [[k1 E] R]. rewrite E. cbn [bind]. apply IH. exact R.
Qed.

Lemma get_drop_column (column : text) (row : RefRow) (k : text) :
  k <> column -> Dict.get (drop_column column row) k = Dict.get row k.
Proof.
  intros N. induction row as [|[k0 c0] row IH]; simpl; [reflexivity|].
  destruct (Str.eqb k0 column) eqn:E; simpl.
  - apply str_eqb_eq in E; subst k0.
    assert (Str.eqb column k = false) as -> by (apply str_eqb_neq; congruence).
    exact IH.
  - destruct (Str.eqb k0 k); [reflexivity | exact IH].
Qed.

Lemma add_keywords_drop (column other : text) (keywords : Dict.t (list text))
      (row : RefRow) :
  column <> other -> str "Full Name of the Journal" <> other ->
  add_keywords column keywords (drop_column other row)
  = add_keywords column keywords row.
Proof.
  intros N1 N2. unfold add_keywords, Dict.getitem.
  rewrite !get_drop_column by assumption. reflexivity.
Qed.

Lemma add_keyword_rows_drop (column other : text) (rows : list RefRow) :
  column <> other -> str "Full Name of the Journal" <> other ->
  forall keywords,
    add_keyword_rows column keywords (map (drop_column other) rows)
    = add_keyword_rows column keywords rows.
Proof.
  intros N1 N2. induction rows as [|row rows IH]; intros keywords;
    cbn [map add_keyword_rows]; [reflexivity|].
  rewrite add_keywords_drop by assumption.
  destruct (add_keywords column keywords row); cbn [bind]; [apply IH | reflexivity].
Qed.

Lemma dedup_ok (l : list text) :
  NoDup (dedup l) /\ forall x, In x (dedup l) <-> In x l.
Proof.
  unfold dedup. split.
  - apply NoDup_rev. apply NoDup_nodup.
  - intros x. rewrite <- in_rev, nodup_In, <- in_rev. reflexivity.
Qed.

Section KeywordTable.

Variable set_list : list text -> list text.
Hypothesis set_list_nodup : forall l, NoDup (set_list l).
Hypothesis set_list_in : forall l x, In x (set_list l) <-> In x l.

Lemma set_list_single (x : text) : set_list [x] = [x].
Proof.
  pose proof (set_list_nodup [x]) as N.
  pose proof (set_list_in [x]) as I.
  destruct (set_list [x]) as [|y l].
  - destruct (proj2 (I x) (or_introl eq_refl)).
  - assert (y = x) by (destruct (proj1 (I y) (or_introl eq_refl)) as [H|[]]; auto).
    subst y. destruct l as [|z l]; [reflexivity|].
    assert (z = x)
      by (destruct (proj1 (I z) (or_intror (or_introl eq_refl))) as [H|[]]; auto).
    subst z. inversion N as [|? ? Hn _]; subst. destruct Hn. left; reflexivity.
Qed.

(** X2: the keyword table [prepare_mapping_data] returns has one entry per
    journal, and every entry is a list, not empty and free of duplicates,
    of clean keywords; the publication data is passed through. *)
Theorem keyword_table_invariant (publication_df pub : PublicationMapping)
        (keywords_df : KeywordFrame) (keywords : Dict.t (list text)) :
  prepare_mapping_data set_list publication_df keywords_df
  = Ok (pub, keywords) ->
  pub = publication_df
  /\ NoDup (Dict.keys keywords)
  /\ forall journal_name l,
      Dict.get keywords journal_name = Some l ->
      l <> [] /\ NoDup l /\ Forall clean_keyword l.
Proof.
  unfold prepare_mapping_data.
  destruct (collect_keywords keywords_df) as [k0|] eqn:E; cbn [bind];
    [|discriminate].
  intros H; inversion H; subst; clear H.
  apply collect_keywords_ok in E as [N F].
  split; [reflexivity|]. split.
  - unfold Dict.keys. rewrite map_map. exact N.
  - intros j l. rewrite get_map_values.
    destruct (Dict.get k0 j) as [l0|] eqn:G; [|discriminate].
    cbn [option_map]. intros H; inversion H; subst; clear H.
    apply dict_get_in in G. rewrite Forall_forall in F.
    destruct (F _ G) as [Ne Fc]. cbn [snd] in *.
    split; [|split; [apply set_list_nodup|]].
    + destruct l0 as [|x l0]; [congruence|]. intros Hs.
      pose proof (proj2 (set_list_in (x :: l0) x) (or_introl eq_refl)) as Hx.
      rewrite Hs in Hx. destruct Hx.
    + apply Forall_forall. intros kw Hin.
      apply (proj1 (set_list_in _ _)) in Hin.
      rewrite Forall_forall in Fc. auto.
Qed.

(** X3: with a keyword column in the sheet, a keyword is listed for a
    journal exactly when some row with that journal name (trimmed) has it
    among the keywords of its cell: the lists of rows with the same journal
    are merged. *)
Theorem keywords_union (publication_df pub : PublicationMapping)
        (keywords_df : KeywordFrame) (column : text)
        (keywords : Dict.t (list text)) :
  keyword_column keywords_df = Some column ->
  prepare_mapping_data set_list publication_df keywords_df
  = Ok (pub, keywords) ->
  forall journal_name kw,
    listed keywords journal_name kw
    <-> exists row, In row (kw_rows keywords_df)
                    /\ contributes column row journal_name kw.
Proof.
  intros Hc. unfold prepare_mapping_data.
  rewrite collect_keywords_column, Hc.
  destruct (add_keyword_rows column [] _) as [k0|] eqn:E; cbn [bind];
    [|discriminate].
  intros H; inversion H; subst; clear H. intros j kw.
  assert (M : listed (map (fun e => (fst e, set_list (snd e))) k0) j kw
              <-> listed k0 j kw).
  { unfold listed. split.
    - intros (l & H & Hin). rewrite get_map_values in H.
      destruct (Dict.get k0 j) as [l0|]; [|discriminate].
      inversion H; subst. apply (proj1 (set_list_in _ _)) in Hin. eauto.
    - intros (l & H & Hin). exists (set_list l). rewrite get_map_values, H.
      split; [reflexivity | apply set_list_in; exact Hin]. }
  rewrite M, (add_keyword_rows_spec _ _ _ _ E j kw).
  split; [|auto]. intros [(l & H & _)|H]; [discriminate | exact H].
Qed.

(** X4: without the journal-name column, or without any keyword column,
    the rows are not read and nothing is raised: every conference of the
    static table gets its abbreviation in lower case as only keyword. *)
Theorem keyword_fallback_default (publication_df : PublicationMapping)
        (keywords_df : KeywordFrame) :
  keyword_column keywords_df = None ->
  prepare_mapping_data set_list publication_df keywords_df
  = Ok (publication_df,
        map (fun e => (snd e, [Str.lower (fst e)])) CONFERENCE_MAPPINGS).
Proof.
  intros Hc. unfold prepare_mapping_data.
  rewrite collect_keywords_column, Hc. cbn [bind]. f_equal. f_equal.
  unfold default_keywords, CONFERENCE_MAPPINGS, Dict.items.
  cbn. rewrite !set_list_single. reflexivity.
Qed.

(** X5: when the sheet has the English keyword column, the Chinese one is
    never read: dropping it from every row changes nothing. *)
Theorem english_column_preferred (publication_df : PublicationMapping)
        (keywords_df : KeywordFrame) :
  keyword_column keywords_df = Some (str "keyword-English") ->
  prepare_mapping_data set_list publication_df
    (mkKeywordFrame (kw_columns keywords_df)
                    (map (drop_column (str "keyword-Chinese"))
                         (kw_rows keywords_df)))
  = prepare_mapping_data set_list publication_df keywords_df.
Proof.
  intros Hc. unfold prepare_mapping_data.
  rewrite !collect_keywords_column.
  change (keyword_column (mkKeywordFrame (kw_columns keywords_df) _))
    with (keyword_column keywords_df).
  rewrite Hc. cbn [kw_rows].
  rewrite add_keyword_rows_drop by discriminate. reflexivity.
Qed.

(** X6: with a keyword column in the sheet, [prepare_mapping_data] returns
    exactly when every row has the journal-name cell and either a missing
    name, or the keyword cell and either missing keywords or a string as
    name; a name that is not a string, with keywords present, aborts. *)
Theorem keyword_rows_accepted (publication_df : PublicationMapping)
        (keywords_df : KeywordFrame) (column : text) :
  keyword_column keywords_df = Some column ->
  (exists r, prepare_mapping_data set_list publication_df keywords_df = Ok r)
  <-> forallb (keyword_row_ok column) (kw_rows keywords_df) = true.
Proof.
  intros Hc. unfold prepare_mapping_data.
  rewrite collect_keywords_column, Hc.
  rewrite <- (add_keyword_rows_success column (kw_rows keywords_df) []).
  split.
  - intros [r H]. destruct (add_keyword_rows column [] _) as [k0|];
      [eauto | discriminate].
  - intros [k0 ->]. cbn [bind]. eauto.
Qed.

End KeywordTable.

Lemma keyword_table_invariant_witness :
  exists keywords,
    prepare_mapping_data dedup (Frame []) sample_keywords
    = Ok (Frame [], keywords)
    /\ NoDup (Dict.keys keywords)
    /\ forall journal_name l,
        Dict.get keywords journal_name = Some l ->
        l <> [] /\ NoDup l /\ Forall clean_keyword l.
Proof.
  eexists. split; [vm_compute; reflexivity|].
  refine (proj2 (keyword_table_invariant dedup
                   (fun l => proj1 (dedup_ok l))
                   (fun l => proj2 (dedup_ok l))
                   (Frame []) (Frame []) sample_keywords _ _)).
  vm_compute; reflexivity.
Defined.

Lemma keywords_union_witness :
  exists keywords,
    prepare_mapping_data dedup (Frame []) sample_keywords
    = Ok (Frame [], keywords)
    /\ (listed keywords (str "Neural Networks") (str "spiking")
        <-> exists row,
            In row (kw_rows sample_keywords)
            /\ contributes (str "keyword-English") row
                           (str "Neural Networks") (str "spiking")).
Proof.
  eexists. split; [vm_compute; reflexivity|].
  refine (keywords_union dedup (fun l => proj2 (dedup_ok l))
            (Frame []) (Frame []) sample_keywords (str "keyword-English")
            _ _ _ (str "Neural Networks") (str "spiking")).
  - reflexivity.
  - vm_compute; reflexivity.
Defined.

Lemma keyword_fallback_default_witness :
  let keywords_df :=
    mkKeywordFrame [str "Full Name of the Journal"; str "Keywords"]
                   [[(str "Full Name of the Journal", CObj (str "7"))]; []] in
  keyword_column keywords_df = None
  /\ exists keywords,
      prepare_mapping_data dedup (Frame []) keywords_df
      = Ok (Frame [], keywords)
      /\ Dict.get keywords
                  (str "International Joint Conference on Neural Networks")
         = Some [str "ijcnn"].
Proof.
  intros keywords_df. split; [reflexivity|].
  eexists. split.
  - exact (keyword_fallback_default dedup (fun l => proj1 (dedup_ok l))
             (fun l => proj2 (dedup_ok l)) (Frame []) keywords_df eq_refl).
  - reflexivity.
Defined.

Lemma english_column_preferred_witness :
  prepare_mapping_data dedup (Frame [])
    (mkKeywordFrame (kw_columns sample_keywords)
       (map (drop_column (str "keyword-Chinese")) (kw_rows sample_keywords)))
  = prepare_mapping_data dedup (Frame []) sample_keywords.
Proof.
  exact (english_column_preferred dedup (Frame []) sample_keywords eq_refl).
Defined.

Lemma keyword_rows_accepted_witness :
  (exists r, prepare_mapping_data dedup (Frame []) sample_keywords = Ok r)
  /\ ~ (exists r,
           prepare_mapping_data dedup (Frame [])
             (mkKeywordFrame
                [str "Full Name of the Journal"; str "keyword-English"]
                [[(str "Full Name of the Journal", CObj (str "7"));
                  (str "keyword-English", CStr (str "vision"))]])
           = Ok r).
Proof.
  split.
  - apply (keyword_rows_accepted dedup (Frame []) sample_keywords
             (str "keyword-English") eq_refl).
    reflexivity.
  - intros H.
    apply (proj1 (keyword_rows_accepted dedup (Frame [])
                    (mkKeywordFrame
                       [str "Full Name of the Journal"; str "keyword-English"]
                       [[(str "Full Name of the Journal", CObj (str "7"));
                         (str "keyword-English", CStr (str "vision"))]])
                    (str "keyword-English") eq_refl)) in H.
    discriminate H.
Defined.

(** ** Building the catalog *)

Lemma row_fields_success (row : RefRow) :
  (exists f, row_fields row = Ok f) <-> ref_row_ok row = true.
Proof.
  unfold row_fields, ref_row_ok, Dict.getitem.
  destruct (Dict.get row (str "Journal Name")) as [[short| |s1]|];
    cbn [bind cell_strip];
    try (split; [intros [? H]; discriminate H | intros H; discriminate H]).
  destruct (Dict.get row (str "Full Name of the Journal")) as [[full| |s2]|];
    cbn [bind cell_strip];
    try (split; [intros [? H]; discriminate H | intros H; discriminate H]).
  destruct (Dict.get row (str "Type")) as [[ty| |s3]|];
    cbn [bind cell_strip isna];
    try (split; [intros [? H]; discriminate H | intros H; discriminate H]);
    (destruct (Dict.get row (str "Level")) as [[lv| |s4]|];
     cbn [bind cell_strip isna];
     try (split; [intros [? H]; discriminate H | intros H; discriminate H]);
     try (split; [intros _; reflexivity | intros _; eexists; reflexivity]);
     (split; [intros _; reflexivity|]; intros _;
      destruct (in_list (Str.strip lv) _); eexists; reflexivity)).
Qed.

Lemma add_rows_success (rows : list RefRow) :
  forall cat,
    (exists cat', add_rows cat rows = Ok cat')
    <-> forallb ref_row_ok rows = true.
Proof.
  induction rows as [|row rows IH]; intros cat; cbn [add_rows forallb].
  - split; eauto.
  - rewrite andb_true_iff, <- row_fields_success. unfold add_row. split.
    + intros [cat' H].
      destruct (row_fields row) as [[[[s f] t] l]|]; cbn [bind] in H;
        [|discriminate].
      split; [eauto|]. eapply IH; eauto.
    + intros [[[[[s f] t] l] E] R]. rewrite E. cbn [bind]. apply IH. exact R.
Qed.

(** X7: [first_analysis] fails only while it indexes the reference sheet.
    It returns exactly when every row after the first has strings for both
    names and a type and a level that are strings, missing or absent; the
    first row and the paper rows play no part in that.  With a plain
    dictionary as reference it always returns. *)
Theorem reference_rows_accepted (df : list PaperRow) (rows : list RefRow)
        (d : Dict.t text) :
  ((exists matches, first_analysis df (Frame rows) = Ok matches)
   <-> forallb ref_row_ok (tl rows) = true)
  /\ exists matches, first_analysis df (Mapping d) = Ok matches.
Proof.
  unfold first_analysis, build_catalog. cbn [index_reference]. split.
  - rewrite <- (add_rows_success (tl rows) empty_catalog). split.
    + intros [ms H].
      destruct (add_rows empty_catalog (tl rows)); [eauto | discriminate].
    + intros [cat ->]. cbn [bind].
      destruct (resolve_all_ok (merge_conferences cat) df) as (ms & H & _).
      eauto.
  - cbn [bind].
    destruct (resolve_all_ok
                (merge_conferences
                   (mkCatalog d
                      (fold_left (fun c v => Dict.set c v v) (Dict.values d) [])
                      (fold_left (fun c v => Dict.set c v (str "Unknown"))
                                 (Dict.values d) [])
                      (fold_left (fun c v => Dict.set c v (str ""))
                                 (Dict.values d) []))) df) as (ms & H & _).
    eauto.
Qed.

Lemma in_set {V : Type} (d : Dict.t V) (k : text) (v : V) (k' : text) (v' : V) :
  In (k', v') (Dict.set d k v) -> (k' = k /\ v' = v) \/ In (k', v') d.
Proof.
  induction d as [|[k0 v0] d IH]; simpl.
  - intros [H|[]]. inversion H; auto.
  - destruct (Str.eqb k0 k) eqn:E.
    + apply str_eqb_eq in E; subst k0.
      intros [H|H]; [inversion H; auto | auto].
    + intros [H|H]; [auto|]. destruct (IH H); auto.
Qed.

Lemma mem_set {V : Type} (d : Dict.t V) (k : text) (v : V) (k' : text) :
  Dict.mem (Dict.set d k v) k' = Dict.mem d k' || Str.eqb k k'.
Proof.
  unfold Dict.mem. destruct (Str.eqb k k') eqn:E.
  - apply str_eqb_eq in E; subst. rewrite dict_get_set_same.
    rewrite orb_true_r. reflexivity.
  - apply str_eqb_neq in E. rewrite dict_get_set_other by exact E.
    rewrite orb_false_r. reflexivity.
Qed.

Lemma get_set_cases {V : Type} (d : Dict.t V) (k : text) (v : V) (k' : text)
      (v' : V) :
  Dict.get (Dict.set d k v) k' = Some v' ->
  (k' = k /\ v' = v) \/ Dict.get d k' = Some v'.
Proof.
  destruct (Str.eqb k k') eqn:E.
  - apply str_eqb_eq in E; subst. rewrite dict_get_set_same.
    intros H; inversion H; auto.
  - apply str_eqb_neq in E. rewrite dict_get_set_other by exact E. auto.
Qed.

Lemma row_fields_level (row : RefRow) (s f t l : text) :
  row_fields row = Ok (s, f, t, l) -> In l levels.
Proof.
  unfold row_fields.
  destruct (Dict.getitem row (str "Journal Name")) as [c1|]; cbn [bind];
    [|discriminate].
  destruct (cell_strip c1); cbn [bind]; [|discriminate].
  destruct (Dict.getitem row (str "Full Name of the Journal")) as [c2|];
    cbn [bind]; [|discriminate].
  destruct (cell_strip c2); cbn [bind]; [|discriminate].
  destruct (match Dict.get row (str "Type") with
            | Some c => if isna c then Ok (str "Unknown") else cell_strip c
            | None => Ok (str "Unknown")
            end); cbn [bind]; [|discriminate].
  assert (E : forall lv, in_list lv [str "A"; str "B"; str "C"] = true ->
                         In lv levels).
  { intros lv H. apply in_list_spec in H. unfold levels.
    simpl in *. tauto. }
  destruct (Dict.get row (str "Level")) as [c|].
  - destruct (isna c).
    + cbn [bind]. intros H; inversion H; subst. do 3 right; left; reflexivity.
    + destruct (cell_strip c) as [lv|]; cbn [bind]; [|discriminate].
      destruct (in_list lv _) eqn:I; cbn [bind]; intros H; inversion H; subst.
      * apply E; exact I.
      * do 3 right; left; reflexivity.
  - cbn [bind]. intros H; inversion H; subst. do 3 right; left; reflexivity.
Qed.

Lemma add_row_ok (cat cat' : Catalog) (row : RefRow) :
  index_ok cat -> add_row cat row = Ok cat' -> index_ok cat'.
Proof.
  intros (W & Hc & Hf & Hl) H.
  split; [eapply add_row_same_keys; eauto|].
  unfold add_row in H.
  destruct (row_fields row) as [[[[s f] t] l]|] eqn:R; cbn [bind] in H;
    [|discriminate].
  inversion H; subst cat'; clear H.
  cbn [journal_fullnames journal_categories journal_levels].
  split; [|split].
  - intros k v G. apply get_set_cases in G as [[-> ->]|G]; [reflexivity | eauto].
  - intros short full Hin. rewrite mem_set.
    apply in_set in Hin as [[_ ->]|Hin].
    + rewrite str_eqb_refl, orb_true_r. reflexivity.
    + rewrite (Hf _ _ Hin). reflexivity.
  - intros k v G. apply get_set_cases in G as [[_ ->]|G]; [|eauto].
    eapply row_fields_level; eauto.
Qed.

Lemma add_rows_ok (rows : list RefRow) :
  forall cat cat', index_ok cat -> add_rows cat rows = Ok cat' -> index_ok cat'.
Proof.
  induction rows as [|row rows IH]; intros cat cat' I H; cbn [add_rows] in H.
  - inversion H; subst; exact I.
  - destruct (add_row cat row) as [c1|] eqn:E; cbn [bind] in H; [|discriminate].
    eapply IH; [|exact H]. eapply add_row_ok; eauto.
Qed.

Lemma fold_set_get {V : Type} (f : text -> V) (vs : list text) :
  forall (d : Dict.t V) k v,
    Dict.get (fold_left (fun c x => Dict.set c x (f x)) vs d) k = Some v ->
    v = f k \/ Dict.get d k = Some v.
Proof.
  induction vs as [|x vs IH]; intros d k v; cbn [fold_left]; [auto|].
  intros H. apply IH in H as [H|H]; [auto|].
  apply get_set_cases in H as [[-> ->]|H]; auto.
Qed.

Lemma fold_set_mem {V : Type} (f : text -> V) (vs : list text) :
  forall (d : Dict.t V) k,
    In k vs \/ Dict.mem d k = true ->
    Dict.mem (fold_left (fun c x => Dict.set c x (f x)) vs d) k = true.
Proof.
  induction vs as [|x vs IH]; intros d k; cbn [fold_left].
  - intros [[]|H]; exact H.
  - intros H. apply IH. rewrite mem_set.
    destruct H as [[->|H]|H]; auto.
    + right. rewrite str_eqb_refl. apply orb_true_r.
    + right. rewrite H. reflexivity.
Qed.

Lemma index_reference_ok (pm : PublicationMapping) (cat : Catalog) :
  index_reference pm = Ok cat -> index_ok cat.
Proof.
  intros H. pose proof (index_reference_same_keys pm cat H) as W.
  destruct pm as [rows|d].
  - eapply add_rows_ok; [|exact H].
    split; [split; reflexivity|]. repeat split; simpl; try discriminate.
    intros _ _ [].
  - cbn [index_reference] in H. inversion H; subst cat; clear H.
    split; [exact W|].
    cbn [journal_fullnames journal_categories journal_levels].
    split; [|split].
    + intros k v G. apply (fold_set_get (fun x => x)) in G as [G|G];
        [exact G | discriminate].
    + intros short full Hin. apply (fold_set_mem (fun x => x)). left.
      unfold Dict.values. apply (in_map snd) in Hin. exact Hin.
    + intros k v G. apply (fold_set_get (fun _ => str "")) in G as [->|G];
        [|discriminate]. do 3 right; left; reflexivity.
Qed.

Lemma ccf_level_restricted (full : text) : In (ccf_level full) levels.
Proof.
  unfold ccf_level, levels.
  destruct (in_list full ccf_a_conferences); [simpl; auto|].
  destruct (in_list full ccf_b_conferences); [simpl; auto|].
  destruct (in_list full ccf_c_conferences); simpl; auto.
Qed.

Lemma merge_ok (cat : Catalog) :
  index_ok cat -> catalog_ok (merge_conferences cat).
Proof.
  intros (W & Hc & Hf & Hl).
  assert (K : forall k, Dict.mem (journal_categories cat) k = true ->
                        Dict.mem (journal_categories (merge_conferences cat)) k
                        = true).
  { intros k. rewrite merge_conferences_merged by exact W.
    unfold merged, Dict.mem. cbn [journal_categories]. rewrite dict_get_app.
    destruct (Dict.get (journal_categories cat) k); [auto | discriminate]. }
  assert (S : forall abbr full,
             In (abbr, full) CONFERENCE_MAPPINGS ->
             Dict.mem (journal_categories (merge_conferences cat)) full = true).
  { intros abbr full Hin.
    destruct (Dict.mem (journal_categories cat) full) eqn:M; [auto|].
    destruct (merge_new_venue cat abbr full W Hin M) as (G & _).
    unfold Dict.mem. rewrite G. reflexivity. }
  split; [|split; [|split; [|split]]].
  - unfold merge_conferences.
    assert (G : forall l c, same_keys c -> same_keys (fold_left add_conference l c)).
    { induction l as [|e l IH]; intros c Wc; cbn [fold_left]; [exact Wc|].
      apply IH. apply add_conference_same_keys. exact Wc. }
    apply G. exact W.
  - intros k v. rewrite merge_conferences_merged by exact W.
    unfold merged. cbn [journal_categories]. rewrite dict_get_app.
    destruct (Dict.get (journal_categories cat) k) eqn:G.
    + intros H; inversion H; subst. eauto.
    + intros H. apply dict_get_in in H. apply in_map_iff in H.
      destruct H as (e & E & _). inversion E; reflexivity.
  - intros short full. rewrite merge_conferences_merged at 1 by exact W.
    unfold merged at 1. cbn [journal_fullnames]. intros Hin.
    apply in_app_or in Hin as [Hin|Hin]; [apply K; eauto|].
    unfold new_abbrs in Hin. apply filter_In in Hin as [Hin _]. eauto.
  - exact S.
  - intros k v. rewrite merge_conferences_merged by exact W.
    unfold merged. cbn [journal_levels]. rewrite dict_get_app.
    destruct (Dict.get (journal_levels cat) k) eqn:G.
    + intros H; inversion H; subst. eauto.
    + intros H. apply dict_get_in in H. apply in_map_iff in H.
      destruct H as ([a f] & E & Hin). cbn [snd] in E. inversion E; subst.
      unfold new_venues in Hin. apply filter_In in Hin as [Hin _].
      rewrite (static_level_ccf a k Hin). apply ccf_level_restricted.
Qed.

(** X8: the catalog [first_analysis] builds is well formed.  The tables of
    categories, types and levels have the same keys in the same order;
    every category is its own name; every short name leads to a full name
    of the catalog; every conference of the static table is in it; every
    level is "A", "B", "C" or "". *)
Theorem built_catalog_ok (pm : PublicationMapping) (cat : Catalog) :
  build_catalog pm = Ok cat -> catalog_ok cat.
Proof.
  unfold build_catalog.
  destruct (index_reference pm) as [cat0|] eqn:E; cbn [bind]; [|discriminate].
  intros H; inversion H; subst. apply merge_ok.
  eapply index_reference_ok; eauto.
Qed.

Lemma built_catalog_ok_witness : catalog_ok sample_catalog.
Proof.
  apply (built_catalog_ok (Frame sample_reference)). vm_compute. reflexivity.
Defined.

(** ** The record of a resolved paper *)

Lemma abbr_match_static (conf_name : text) (items : list (text * text))
      (v : text) :
  abbr_match conf_name items = Some v ->
  exists abbr,
    In (abbr, v) items
    /\ (is_some (Re.search true (Pat.whole_word abbr) conf_name)
        || is_some (Re.search true (Pat.with_year abbr) conf_name)
        || Str.startswith conf_name abbr) = true.
Proof.
  induction items as [|[abbr full] items IH]; cbn [abbr_match]; [discriminate|].
  destruct (_ || _) eqn:E.
  - intros H; inversion H; subst. exists abbr. split; [left; reflexivity | exact E].
  - intros H. destruct (IH H) as (a & Hin & Ha). exists a. split; [right|]; auto.
Qed.

Lemma tier3_static (conf_names : list text) (v : text) (mt : MatchType) :
  tier3 conf_names = Ok (Some (v, mt)) ->
  exists abbr, In (abbr, v) CONFERENCE_MAPPINGS.
Proof.
  induction conf_names as [|n l IH]; [discriminate|]. cbn [tier3].
  destruct (Dict.mem CONFERENCE_MAPPINGS n).
  - unfold Dict.getitem.
    destruct (Dict.get CONFERENCE_MAPPINGS n) as [full|] eqn:G; cbn [bind];
      [|discriminate].
    intros H; inversion H; subst. exists n. apply dict_get_in. exact G.
  - destruct (abbr_match n (Dict.items CONFERENCE_MAPPINGS)) as [full|] eqn:A;
      [|exact IH].
    intros H; inversion H; subst.
    apply abbr_match_static in A as (abbr & Hin & _). eauto.
Qed.

(** A venue found by any tier is a full name of a well-formed catalog. *)
Lemma resolve_venue_in_catalog (cat : Catalog) (subject v : text)
      (mt : MatchType) :
  catalog_ok cat ->
  resolve_venue cat subject = Ok (Some (v, mt)) ->
  Dict.mem (journal_categories cat) v = true.
Proof.
  intros (W & Hc & Hf & Hs & Hl) H.
  rewrite resolve_venue_cascade in H.
  destruct (tier1 subject _) as [[f|]|] eqn:T1; [| |discriminate].
  - inversion H; subst. apply tier1_some_inv in T1 as (l1 & l2 & E & _).
    rewrite mem_keys. apply in_list_spec. rewrite E.
    apply in_or_app. right. left. reflexivity.
  - destruct (tier2 subject _) as [[f2 m2]|] eqn:T2.
    + inversion H; subst.
      apply tier2_some_inv in T2 as (short & Hin & _). eauto.
    + destruct (extract_conference_name subject) as [names|]; cbn [bind] in H;
        [|discriminate].
      apply tier3_static in H as [abbr Hin]. eauto.
Qed.

(** X9: a record [first_analysis] produces is consistent with the catalog
    it built.  Its title, comments and link are the first, third and fourth
    cells of the row, and the comments contain "Comments"; its venue is a
    full name of the catalog, and its type and level are the catalog's
    entries for that venue, never the fall-back values of a failed lookup;
    the level is "A", "B", "C" or ""; it has no keyword hits yet. *)
Theorem resolved_record_consistent (pm : PublicationMapping) (cat : Catalog)
        (row : PaperRow) (rec : MatchRecord) :
  build_catalog pm = Ok cat ->
  resolve cat row = Ok (Some rec) ->
  Title rec = cell_text row 0
  /\ Subject rec = cell_text row 2
  /\ URL rec = cell_text row 3
  /\ Str.contains (Subject rec) (str "Comments") = true
  /\ Dict.get (journal_categories cat) (Publication rec)
     = Some (Publication rec)
  /\ Dict.get (journal_types cat) (Publication rec)
     = Some (Publication_Type rec)
  /\ Dict.get (journal_levels cat) (Publication rec)
     = Some (Publication_Level rec)
  /\ In (Publication_Level rec) levels
  /\ Keywords_Hit rec = None.
Proof.
  intros Hb Hr.
  assert (C : catalog_ok cat).
  { unfold build_catalog in Hb.
    destruct (index_reference pm) as [cat0|] eqn:E; cbn [bind] in Hb;
      [|discriminate].
    inversion Hb; subst. apply merge_ok. eapply index_reference_ok; eauto. }
  rewrite resolve_unfold in Hr.
  destruct (Str.contains (cell_text row 2) (str "Comments")) eqn:El;
    [|discriminate].
  destruct (resolve_venue cat (cell_text row 2)) as [[[v mt]|]|] eqn:V;
    cbn [bind] in Hr; try discriminate.
  inversion Hr; subst rec; clear Hr.
  pose proof (resolve_venue_in_catalog cat _ v mt C V) as M.
  destruct C as (W & Hc & _ & _ & Hl).
  destruct (same_keys_mem cat v W) as [M1 M2]. rewrite M in M1, M2.
  apply dict_mem_get in M as [c Gc].
  apply dict_mem_get in M1 as [t Gt].
  apply dict_mem_get in M2 as [l Gl].
  cbn [Title Subject URL Publication Publication_Type Publication_Level
       Keywords_Hit record_for].
  unfold Dict.get_default. rewrite Gt, Gl.
  repeat split; auto.
  - rewrite Gc. f_equal. eauto.
  - eauto.
Qed.

Lemma resolved_record_consistent_witness :
  let row := [CStr (str "A paper"); CNaN;
              CStr (str "Comments: Accepted to Neural Networks journal");
              CStr (str "http://arxiv.org/abs/5")] in
  exists rec,
    resolve sample_catalog row = Ok (Some rec)
    /\ Dict.get (journal_levels sample_catalog) (Publication rec)
       = Some (Publication_Level rec)
    /\ In (Publication_Level rec) levels.
Proof.
  intros row. eexists. split; [vm_compute; reflexivity|].
  refine ((fun H => conj (proj1 (proj2 (proj2 (proj2 (proj2 (proj2 (proj2 H)))))))
                         (proj1 (proj2 (proj2 (proj2 (proj2 (proj2 (proj2 (proj2 H)))))))))
            (resolved_record_consistent (Frame sample_reference) sample_catalog
               row _ _ _)).
  - vm_compute; reflexivity.
  - vm_compute; reflexivity.
Defined.

(** ** What a match rests on *)

Lemma group1_part (t : text) (m : Re.Match) (g : text) :
  Re.group1 t m = Some g -> part_of g t.
Proof.
  unfold Re.group1. destruct (Re.m_g1 m) as [[a b]|]; [|discriminate].
  intros H; inversion H; subst.
  exists (firstn a t), (skipn (b - a) (skipn a t)).
  rewrite firstn_skipn, firstn_skipn. reflexivity.
Qed.

Lemma collect_names_candidates (t : text) (ms : list Re.Match) :
  forall results l,
    Forall (candidate_of t) results ->
    collect_names t ms results = Ok l -> Forall (candidate_of t) l.
Proof.
  induction ms as [|m ms IH]; intros results l F; cbn [collect_names].
  - intros H; inversion H; subst; exact F.
  - destruct (Re.group1 t m) as [g|] eqn:G; cbn [deref bind]; [|discriminate].
    destruct (negb (Str.eqb (Str.strip g) []) && (2 <? List.length (Str.strip g))
              && negb (Str.isdigit (Str.strip g))) eqn:C; [|apply IH; exact F].
    apply IH. apply Forall_app. split; [exact F|]. constructor; [|constructor].
    apply andb_true_iff in C as [C C3]. apply andb_true_iff in C as [_ C2].
    apply Nat.ltb_lt in C2. apply negb_true_iff in C3.
    destruct (strip_spec g) as (a & b & E & _ & _ & Hh & Hl).
    repeat split; auto.
    apply (part_of_trans _ g); [exists a, b; exact E|].
    eapply group1_part; eauto.
Qed.

Lemma extract_loop_candidates (t : text) (patterns : list Re.re) :
  forall results l,
    Forall (candidate_of t) results ->
    extract_loop t patterns results = Ok l -> Forall (candidate_of t) l.
Proof.
  induction patterns as [|p ps IH]; intros results l F; cbn [extract_loop].
  - intros H; inversion H; subst; exact F.
  - destruct (collect_names t (Re.finditer p t) results) as [r1|] eqn:E;
      cbn [bind]; [|discriminate].
    apply IH. eapply collect_names_candidates; eauto.
Qed.

Lemma extract_candidates (t : text) (names : list text) :
  extract_conference_name t = Ok names -> Forall (candidate_of t) names.
Proof.
  apply extract_loop_candidates. constructor.
Qed.


Lemma part_of_lower (a b : text) :
  part_of a b -> part_of (Str.lower a) (Str.lower b).
Proof.
  intros (x & y & ->). exists (Str.lower x), (Str.lower y).
  unfold Str.lower. rewrite !map_app. reflexivity.
Qed.

Lemma is_exact_match_occurs (t journal_name : text) :
  is_exact_match t journal_name = Ok true ->
  part_of (Str.lower journal_name) (Str.lower t).
Proof.
  unfold is_exact_match.
  destruct (in_list journal_name special_journals).
  - destruct (Re.search false (Pat.special journal_name) t) as [m|] eqn:E;
      cbn [is_some]; [|discriminate].
    intros _. apply special_search in E as (a & r & _ & R).
    apply part_of_lower. exists (firstn a t), r.
    rewrite <- R. symmetry. apply firstn_skipn.
  - destruct (Str.contains (Str.lower t) (Str.lower journal_name)) eqn:C;
      [|discriminate].
    intros _. apply contains_spec. exact C.
Qed.

Lemma with_year_occurs (abbr conf_name : text) :
  is_some (Re.search true (Pat.with_year abbr) conf_name) = true ->
  part_of (Str.lower abbr) (Str.lower conf_name).
Proof.
  unfold Re.search.
  rewrite (search_from_iff true (Pat.with_year abbr) conf_name []).
  intros (l1 & l2 & -> & H). cbn [app] in H.
  unfold Re.match_at, Pat.with_year in H. cbn [Re.seqs Re.run] in H.
  destruct (Re.at_boundary _); [|discriminate].
  rewrite run_lit in H.
  destruct (skip_lit true abbr _) as [x'|] eqn:S; [|discriminate].
  apply (skip_lit_sound _ _ _ l1) in S; [|reflexivity].
  destruct S as (w & S1 & S2 & _). cbn [Re.rest] in S1.
  rewrite <- S2. apply part_of_lower. exists l1, (Re.rest x').
  rewrite S1. reflexivity.
Qed.

Lemma abbr_condition_occurs (abbr conf_name : text) :
  (is_some (Re.search true (Pat.whole_word abbr) conf_name)
   || is_some (Re.search true (Pat.with_year abbr) conf_name)
   || Str.startswith conf_name abbr) = true ->
  part_of (Str.lower abbr) (Str.lower conf_name).
Proof.
  rewrite !orb_true_iff. intros [[H|H]|H].
  - apply whole_word_search in H as (a & w & b & -> & L & _).
    rewrite <- L. apply part_of_lower. exists a, b. reflexivity.
  - apply with_year_occurs. exact H.
  - apply startswith_spec in H as [r ->]. apply part_of_lower.
    exists [], r. reflexivity.
Qed.

Lemma tier3_evidence (conf_names : list text) (v : text) (mt : MatchType) :
  tier3 conf_names = Ok (Some (v, mt)) ->
  exists conf_name abbr,
    In conf_name conf_names
    /\ In (abbr, v) CONFERENCE_MAPPINGS
    /\ ((mt = ConferenceNameMatch /\ conf_name = abbr)
        \/ (mt = ConferenceAbbrMatch
            /\ part_of (Str.lower abbr) (Str.lower conf_name))).
Proof.
  induction conf_names as [|n l IH]; [discriminate|]. cbn [tier3].
  destruct (Dict.mem CONFERENCE_MAPPINGS n).
  - unfold Dict.getitem.
    destruct (Dict.get CONFERENCE_MAPPINGS n) as [full|] eqn:G; cbn [bind];
      [|discriminate].
    intros H; inversion H; subst. exists n, n.
    split; [left; reflexivity|]. split; [apply dict_get_in; exact G | auto].
  - destruct (abbr_match n (Dict.items CONFERENCE_MAPPINGS)) as [full|] eqn:A.
    + intros H; inversion H; subst.
      apply abbr_match_static in A as (abbr & Hin & C).
      exists n, abbr. split; [left; reflexivity|]. split; [exact Hin|].
      right. split; [reflexivity | apply abbr_condition_occurs; exact C].
    + intros H. destruct (IH H) as (c & a & Hc & R).
      exists c, a. split; [right; exact Hc | exact R].
Qed.

(** X11: no venue without evidence in the text.  For every record, up to
    letter case: an ExactFullName match has the venue name in the comments;
    a short-name match has an upper-case short name of the venue in them,
    in that very case; a ConferenceNameMatch has an abbreviation of the
    static table for the venue in them, in that very case; a
    ConferenceAbbrMatch has one up to letter case. *)
Theorem match_rests_on_text (cat : Catalog) (row : PaperRow)
        (rec : MatchRecord) :
  resolve cat row = Ok (Some rec) ->
  match Match_Type rec with
  | ExactFullName =>
      part_of (Str.lower (Publication rec)) (Str.lower (Subject rec))
  | ExactShortName | ShortNameWithYear =>
      exists short,
        In (short, Publication rec) (Dict.items (journal_fullnames cat))
        /\ Str.isupper short = true
        /\ part_of short (Subject rec)
  | ConferenceNameMatch =>
      exists abbr,
        In (abbr, Publication rec) CONFERENCE_MAPPINGS
        /\ part_of abbr (Subject rec)
  | ConferenceAbbrMatch =>
      exists abbr,
        In (abbr, Publication rec) CONFERENCE_MAPPINGS
        /\ part_of (Str.lower abbr) (Str.lower (Subject rec))
  end.
Proof.
  rewrite resolve_unfold.
  destruct (Str.contains _ _); [|discriminate].
  destruct (resolve_venue cat (cell_text row 2)) as [[[v mt]|]|] eqn:V;
    cbn [bind]; try discriminate.
  intros H; inversion H; subst rec; clear H.
  cbn [Match_Type Publication Subject record_for].
  rewrite resolve_venue_cascade in V.
  destruct (tier1 (cell_text row 2) _) as [[f|]|] eqn:T1; [| |discriminate].
  - inversion V; subst.
    apply tier1_some_inv in T1 as (_ & _ & _ & _ & T).
    apply is_exact_match_occurs. exact T.
  - destruct (tier2 (cell_text row 2) _) as [[f2 m2]|] eqn:T2.
    + inversion V; subst.
      apply tier2_some_inv in T2 as (short & Hin & Hu & Hc & [-> | ->]);
        exists short; repeat split; auto; apply contains_spec; exact Hc.
    + destruct (extract_conference_name (cell_text row 2)) as [names|] eqn:X;
        cbn [bind] in V; [|discriminate].
      apply extract_candidates in X. rewrite Forall_forall in X.
      apply tier3_evidence in V as (n & abbr & Hn & Hin & [[-> ->]|[-> P]]).
      * exists abbr. split; [exact Hin|]. apply (X abbr Hn).
      * exists abbr. split; [exact Hin|].
        apply (part_of_trans _ (Str.lower n)); [exact P|].
        apply part_of_lower. apply (X n Hn).
Qed.

Lemma match_rests_on_text_witness :
  let row := [CStr (str "A paper"); CNaN;
              CStr (str "Comments: accepted at Neurips 2023");
              CStr (str "http://arxiv.org/abs/6")] in
  let rec :=
    record_for static_catalog row
      (str "Annual Conference on Neural Information Processing Systems")
      ConferenceAbbrMatch in
  resolve static_catalog row = Ok (Some rec)
  /\ exists abbr,
      In (abbr, Publication rec) CONFERENCE_MAPPINGS
      /\ part_of (Str.lower abbr) (Str.lower (Subject rec)).
Proof.
  intros row rec.
  assert (H : resolve static_catalog row = Ok (Some rec))
    by (vm_compute; reflexivity).
  split; [exact H|].
  exact (match_rests_on_text static_catalog row rec H).
Defined.

(** ** Frames of papers and of records *)

Lemma resolve_all_app (cat : Catalog) (df1 df2 : list PaperRow) :
  resolve_all cat (df1 ++ df2) =
  ms1 <- resolve_all cat df1 ;;
  ms2 <- resolve_all cat df2 ;;
  Ok (ms1 ++ ms2).
Proof.
  induction df1 as [|row df1 IH]; cbn [app resolve_all].
  - cbn [bind]. destruct (resolve_all cat df2); reflexivity.
  - destruct (resolve_ok cat row) as [r ->]. cbn [bind]. rewrite IH.
    destruct (resolve_all cat df1) as [ms1|]; cbn [bind]; [|reflexivity].
    destruct (resolve_all cat df2) as [ms2|]; cbn [bind];
      destruct r; reflexivity.
Qed.

Lemma resolve_all_eligible (cat : Catalog) (df : list PaperRow) :
  resolve_all cat (filter eligible df) = resolve_all cat df.
Proof.
  induction df as [|row df IH]; [reflexivity|].
  cbn [filter]. destruct (eligible row) eqn:E.
  - cbn [resolve_all]. rewrite IH. reflexivity.
  - cbn [resolve_all]. rewrite IH.
    assert (R : resolve cat row = Ok None)
      by (rewrite resolve_unfold; unfold eligible in E; rewrite E; reflexivity).
    rewrite R. cbn [bind]. destruct (resolve_all cat df); reflexivity.
Qed.

(** X12: papers are resolved one by one, against the same catalog.  The
    records for two frames of papers put end to end are the records for
    the first followed by those for the second; rows without "Comments" can
    be left out without changing the result; there are no more records
    than rows with "Comments". *)
Theorem papers_resolved_independently (pm : PublicationMapping)
        (df1 df2 : list PaperRow) (ms1 ms2 : list MatchRecord) :
  first_analysis df1 pm = Ok ms1 ->
  first_analysis df2 pm = Ok ms2 ->
  first_analysis (df1 ++ df2) pm = Ok (ms1 ++ ms2)
  /\ first_analysis (filter eligible df1) pm = Ok ms1
  /\ List.length ms1 <= List.length (filter eligible df1).
Proof.
  unfold first_analysis.
  destruct (build_catalog pm) as [cat|]; cbn [bind]; [|discriminate].
  intros H1 H2. split; [|split].
  - rewrite resolve_all_app, H1, H2. reflexivity.
  - rewrite resolve_all_eligible. exact H1.
  - rewrite <- resolve_all_eligible in H1.
    destruct (resolve_all_ok cat (filter eligible df1)) as (ms & H & L).
    rewrite H in H1. inversion H1; subst. exact L.
Qed.

Lemma papers_resolved_independently_witness :
  let a := [CStr (str "P1"); CNaN; CStr (str "Comments: ICML 2024")] in
  let b := [CStr (str "P2"); CNaN; CStr (str "Under review")] in
  let c := [CStr (str "P3"); CNaN; CStr (str "Comments: 10 pages")] in
  exists m,
    first_analysis ([a; b] ++ [c]) (Frame []) = Ok ([m] ++ [])
    /\ first_analysis (filter eligible [a; b]) (Frame []) = Ok [m]
    /\ List.length [m] <= List.length (filter eligible [a; b]).
Proof.
  intros a b c. eexists.
  refine (papers_resolved_independently (Frame []) [a; b] [c] [_] [] _ _).
  - vm_compute; reflexivity.
  - vm_compute; reflexivity.
Defined.

Lemma score_hits_text (keywords : Dict.t (list text)) (row : MatchRecord) :
  score keywords (set_keywords_hit row (str ""))
  = Ok (set_keywords_hit row (hits_text keywords row)).
Proof.
  unfold score, hits_text, Dict.mem, Dict.getitem.
  cbn [Publication Title set_keywords_hit].
  destruct (Dict.get keywords (Publication row)) as [kws|]; cbn [bind];
    [|reflexivity].
  destruct (keyword_hits (Title row) kws); reflexivity.
Qed.

Lemma score_all_hits_text (keywords : Dict.t (list text))
      (rows : list MatchRecord) :
  score_all keywords (map (fun row => set_keywords_hit row (str "")) rows)
  = Ok (map (fun row => set_keywords_hit row (hits_text keywords row)) rows).
Proof.
  induction rows as [|row rows IH]; [reflexivity|].
  cbn [map score_all]. rewrite score_hits_text, IH. reflexivity.
Qed.

Lemma second_analysis_map (result_df : list MatchRecord)
      (keywords : Dict.t (list text)) :
  second_analysis result_df keywords
  = Ok (map (fun row => set_keywords_hit row (hits_text keywords row))
            result_df).
Proof.
  destruct result_df as [|r df]; [reflexivity|].
  unfold second_analysis. apply score_all_hits_text.
Qed.

(** X13: [second_analysis] keeps the rows and their order, gives every row
    a keyword-hit text and changes no venue; scoring its result again with
    the same table changes nothing. *)
Theorem second_analysis_idempotent (result_df scored : list MatchRecord)
        (keywords : Dict.t (list text)) :
  second_analysis result_df keywords = Ok scored ->
  second_analysis scored keywords = Ok scored
  /\ map Publication scored = map Publication result_df
  /\ map Title scored = map Title result_df
  /\ Forall (fun row => Keywords_Hit row = Some (hits_text keywords row)) scored.
Proof.
  rewrite second_analysis_map. intros H; inversion H; subst; clear H.
  split; [|split; [|split]].
  - rewrite second_analysis_map, map_map. reflexivity.
  - rewrite map_map. reflexivity.
  - rewrite map_map. reflexivity.
  - apply Forall_forall. intros r Hin. apply in_map_iff in Hin.
    destruct Hin as (r0 & <- & _). reflexivity.
Qed.

Lemma second_analysis_idempotent_witness :
  let rec := mkRecord (str "IJCNN: new results") (str "Comments: IJCNN 2025")
                      (str "u")
                      (str "International Joint Conference on Neural Networks")
                      (str "Conference") (str "C") ExactShortName None in
  let keywords :=
    [(str "International Joint Conference on Neural Networks",
      [str "results"; str "ijcnn"])] in
  let scored := [set_keywords_hit rec (str "results, ijcnn")] in
  second_analysis [rec] keywords = Ok scored
  /\ second_analysis scored keywords = Ok scored.
Proof.
  intros rec keywords scored.
  assert (H : second_analysis [rec] keywords = Ok scored)
    by (vm_compute; reflexivity).
  split; [exact H|].
  exact (proj1 (second_analysis_idempotent [rec] scored keywords H)).
Defined.

(** ** Reading the keyword hits back *)







Section KeywordRoundTrip.

Variable set_list : list text -> list text.
Hypothesis set_list_in : forall l x, In x (set_list l) <-> In x l.



End KeywordRoundTrip.


(** ** The report *)

Lemma keywords_hit_column_scored (f : MatchRecord -> text)
      (df : list MatchRecord) :
  keywords_hit_column (map (fun row => set_keywords_hit row (f row)) df)
  = Ok (map (fun row => (set_keywords_hit row (f row), f row)) df).
Proof.
  induction df as [|r df IH]; [reflexivity|].
  cbn [map keywords_hit_column Keywords_Hit set_keywords_hit].
  rewrite IH. reflexivity.
Qed.

Lemma resolve_all_unscored (cat : Catalog) (df : list PaperRow) :
  forall ms,
    resolve_all cat df = Ok ms ->
    Forall (fun m => Keywords_Hit m = None) ms.
Proof.
  induction df as [|row df IH]; intros ms; cbn [resolve_all].
  - intros H; inversion H; constructor.
  - rewrite resolve_unfold.
    destruct (resolve_all cat df) as [ms0|]; cbn [bind].
    + specialize (IH ms0 eq_refl).
      destruct (Str.contains _ _); cbn [bind];
        [|intros H; inversion H; subst; exact IH].
      destruct (resolve_venue cat _) as [[[v mt]|]|]; cbn [bind];
        intros H; inversion H; subst; auto.
    + destruct (Str.contains _ _); cbn [bind]; [|discriminate].
      destruct (resolve_venue cat _) as [[[v mt]|]|]; cbn [bind]; discriminate.
Qed.

(** X15: the report needs the scoring first.  On the result of
    [second_analysis] [format_and_display_results] ends normally; on one or
    more records straight from [first_analysis], which lack the
    keyword-hit column, it prints the first table and then raises
    [KeyError]. *)
Theorem report_needs_scoring (df : list PaperRow) (pm : PublicationMapping)
        (matches scored : list MatchRecord) (keywords : Dict.t (list text)) :
  first_analysis df pm = Ok matches ->
  second_analysis matches keywords = Ok scored ->
  snd (format_and_display_results scored) = Ok tt
  /\ (matches <> [] ->
      snd (format_and_display_results matches) = Raise KeyError
      /\ exists head tail,
          fst (format_and_display_results matches)
          = head ++ map match_line matches ++ tail).
Proof.
  intros H1 H2. split.
  - rewrite second_analysis_map in H2. inversion H2; subst; clear H2.
    unfold format_and_display_results.
    destruct matches as [|r ms]; [reflexivity|].
    rewrite keywords_hit_column_scored. reflexivity.
  - intros N. unfold first_analysis in H1.
    destruct (build_catalog pm) as [cat|]; cbn [bind] in H1; [|discriminate].
    apply resolve_all_unscored in H1.
    destruct matches as [|r ms]; [congruence|].
    inversion H1 as [|? ? Hr _]; subst.
    unfold format_and_display_results. cbn [keywords_hit_column].
    rewrite Hr. cbn [fst snd]. split; [reflexivity|].
    match goal with
    | |- exists head tail, ?a ++ ?b ++ map match_line ?m ++ ?t = _ =>
        exists (a ++ b), t; apply app_assoc
    end.
Qed.

Lemma ljust_length (width : nat) (s : text) :
  List.length (ljust width s) = Nat.max width (List.length s).
Proof.
  unfold ljust. rewrite length_app, repeat_length. lia.
Qed.

Lemma display_title_length (x : text) :
  List.length (display_title x) <= 38
  /\ (List.length x <= 35 -> display_title x = x).
Proof.
  unfold display_title. destruct (35 <? List.length x) eqn:E.
  - apply Nat.ltb_lt in E. split; [|lia].
    rewrite length_app, firstn_length_le by lia. simpl. lia.
  - apply Nat.ltb_ge in E. split; [lia | reflexivity].
Qed.

(** X16: in a line of the report the title column is always 40 characters
    wide, a title of at most 35 characters is shown in full, and the venue
    starts right after the column; the line has 118 characters when the
    venue, the type, the level and the match type fit their columns, and
    is never shorter. *)
Theorem report_title_column (row : MatchRecord) :
  List.length (ljust 40 (display_title (Title row))) = 40
  /\ (List.length (Title row) <= 35 -> display_title (Title row) = Title row)
  /\ (exists rest,
         match_line row
         = ljust 40 (display_title (Title row)) ++ Publication row ++ rest)
  /\ 118 <= List.length (match_line row)
  /\ (List.length (Publication row) <= 45 ->
      List.length (Publication_Type row) <= 8 ->
      List.length (Publication_Level row) <= 10 ->
      List.length (match_type_tag (Match_Type row)) <= 15 ->
      List.length (match_line row) = 118).
Proof.
  destruct (display_title_length (Title row)) as [L F].
  assert (E : List.length (match_line row)
              = 40 + Nat.max 45 (List.length (Publication row))
                + Nat.max 8 (List.length (Publication_Type row))
                + Nat.max 10 (List.length (Publication_Level row))
                + Nat.max 15 (List.length (match_type_tag (Match_Type row)))).
  { unfold match_line. rewrite !length_app, !ljust_length. lia. }
  split; [rewrite ljust_length; lia|]. split; [exact F|]. split.
  - unfold match_line. unfold ljust at 2. rewrite <- !app_assoc.
    eexists. reflexivity.
  - split; [lia|]. intros. lia.
Qed.

Lemma report_title_column_witness :
  let row := mkRecord (str "A very long paper title that does not fit the column")
                      (str "Comments: ICML 2024") (str "u")
                      (str "Neural Networks") (str "Journal") (str "B")
                      ExactFullName None in
  List.length (ljust 40 (display_title (Title row))) = 40
  /\ List.length (match_line row) = 118.
Proof.
  intros row.
  destruct (report_title_column row) as (H1 & _ & _ & _ & H5).
  split; [exact H1|]. apply H5; vm_compute; lia.
Defined.

Lemma report_needs_scoring_witness :
  let row := [CStr (str "IJCNN: new results"); CNaN;
              CStr (str "Comments: IJCNN 2025")] in
  let keywords :=
    [(str "International Joint Conference on Neural Networks",
      [str "ijcnn"])] in
  let rec :=
    record_for static_catalog row
      (str "International Joint Conference on Neural Networks")
      ExactShortName in
  first_analysis [row] (Frame []) = Ok [rec]
  /\ second_analysis [rec] keywords
     = Ok [set_keywords_hit rec (str "ijcnn")]
  /\ snd (format_and_display_results [set_keywords_hit rec (str "ijcnn")])
     = Ok tt
  /\ snd (format_and_display_results [rec]) = Raise KeyError.
Proof.
  intros row keywords rec.
  assert (H1 : first_analysis [row] (Frame []) = Ok [rec])
    by (vm_compute; reflexivity).
  assert (H2 : second_analysis [rec] keywords
               = Ok [set_keywords_hit rec (str "ijcnn")])
    by (vm_compute; reflexivity).
  destruct (report_needs_scoring [row] (Frame []) [rec]
              [set_keywords_hit rec (str "ijcnn")] keywords H1 H2)
    as [R1 R2].
  split; [exact H1|]. split; [exact H2|]. split; [exact R1|].
  apply R2. discriminate.
Defined.

Lemma reference_rows_accepted_witness :
  (exists matches, first_analysis [] (Frame sample_reference) = Ok matches)
  /\ ~ (exists matches,
           first_analysis []
             (Frame [[]; [(str "Journal Name", CStr (str "NN"));
                          (str "Full Name of the Journal", CNaN)]])
           = Ok matches).
Proof.
  split.
  - apply (proj1 (reference_rows_accepted [] sample_reference [])).
    reflexivity.
  - intros H.
    apply (proj1 (proj1 (reference_rows_accepted []
                           [[]; [(str "Journal Name", CStr (str "NN"));
                                 (str "Full Name of the Journal", CNaN)]]
                           []))) in H.
    discriminate H.
Defined.
